(** * mcp-vnc: a shallow embedding of the VNC tool server

    The development follows the layout of the TypeScript sources:
    - [JS]         the fragment of JavaScript semantics the sources rely on
                   (strings, property lookup on object literals, [||]);
    - [Keyboard]   src/vnc/keyboard.ts;
    - [Client]     src/vnc/client.ts;
    - [Input]      src/tools/input.ts;
    - [Screenshot] src/tools/screenshot.ts.

    Conventions.  A JavaScript string is a Rocq [string]: a sequence of code
    units below 256.  Numbers that the sources only compare, add or print are
    integers ([Z]); a quotient that is compared with a constant is a rational
    ([Q]); the single use of [Math.sqrt] is read over the reals.  A Node
    [Buffer] is a [list Z] of bytes, written through [toUint8].  Calls into
    the RFB client and the image library are recorded, not executed: they
    return and do not throw.  Console output is left out. *)

From Stdlib Require Import ZArith QArith Reals Lia Lra Bool List Ascii String.
From Stdlib Require Import Numbers.DecimalString.
From stdpp Require Import base list strings gmap.
Import ListNotations.

Local Open Scope Z_scope.

(* ===================================================================== *)
(** * JavaScript values and strings                                        *)
(* ===================================================================== *)

Module JS.

(** Values that reach [sendKeyEvent] and [sendPointerEvent]: a number, the
    not-a-number of [''.charCodeAt(0)], or a member that an object literal
    inherits from [Object.prototype] (a function, or the prototype object
    itself for [__proto__]). *)
Inductive value : Type :=
| Num (n : Z)
| NaN
| Undefined
| Inherited (name : string).

(** ToBoolean. *)
Definition truthy (v : value) : bool :=
  match v with
  | Num n => negb (n =? 0)
  | NaN => false
  | Undefined => false
  | Inherited _ => true
  end.

(** The property names every object literal inherits. *)
Definition objectPrototypeKeys : list string :=
  [ "constructor"; "hasOwnProperty"; "isPrototypeOf"; "propertyIsEnumerable";
    "toLocaleString"; "toString"; "valueOf"; "__proto__";
    "__defineGetter__"; "__defineSetter__";
    "__lookupGetter__"; "__lookupSetter__" ]%string.

(** [obj[key]] on an object literal whose own properties are [own]: own
    properties first, then the prototype chain. *)
Definition getProperty (own : gmap string Z) (key : string) : value :=
  match own !! key with
  | Some n => Num n
  | None =>
      if bool_decide (key ∈ objectPrototypeKeys)
      then Inherited key else Undefined
  end.

(** [a || b]. *)
Definition or_else (a b : value) : value := if truthy a then a else b.

(** [s || d] on an optional string: [undefined] and [''] are falsy. *)
Definition string_or (s : option string) (d : string) : string :=
  match s with
  | Some (String c rest) => String c rest
  | _ => d
  end.

(** [s.charCodeAt(0)]. *)
Definition charCodeAt0 (s : string) : value :=
  match s with
  | EmptyString => NaN
  | String c _ => Num (Z.of_nat (nat_of_ascii c))
  end.

(** [n || 0] on a number that may be [undefined]. *)
Definition or_zero (n : option Z) : Z := default 0 n.

(** Template-literal rendering of an integer. *)
Definition string_of_Z (n : Z) : string :=
  NilZero.string_of_int (Z.to_int n).

(** White space, as [String.prototype.trim] sees it, among the code units
    below 256: TAB, LF, VT, FF, CR, SP and NBSP. *)
Definition isWhiteSpace (c : ascii) : bool :=
  let n := nat_of_ascii c in
  ((9 <=? n) && (n <=? 13) || (n =? 32) || (n =? 160))%nat.

Fixpoint trimStart (s : string) : string :=
  match s with
  | EmptyString => EmptyString
  | String c rest => if isWhiteSpace c then trimStart rest else s
  end.

Fixpoint trimEnd (s : string) : string :=
  match s with
  | EmptyString => EmptyString
  | String c rest =>
      match trimEnd rest with
      | EmptyString => if isWhiteSpace c then EmptyString else String c EmptyString
      | rest' => String c rest'
      end
  end.

Definition trim (s : string) : string := trimEnd (trimStart s).

(** [s.split(sep)] for a one-character separator: never the empty list. *)
Fixpoint split (sep : ascii) (s : string) : list string :=
  match s with
  | EmptyString => [EmptyString]
  | String c rest =>
      if Ascii.eqb c sep then EmptyString :: split sep rest
      else match split sep rest with
           | [] => [String c EmptyString]
           | part :: parts => String c part :: parts
           end
  end.

(** [parts.join(sep)]. *)
Fixpoint join (sep : string) (parts : list string) : string :=
  match parts with
  | [] => EmptyString
  | [p] => p
  | p :: rest => p +:+ sep +:+ join sep rest
  end.

(** [parts.slice(0, -1)]. *)
Definition slice_but_last {A} (l : list A) : list A := removelast l.

End JS.

(* ===================================================================== *)
(** * src/vnc/keyboard.ts                                                  *)
(* ===================================================================== *)

Module Keyboard.
Import JS.

Record KeyInput := { modifiers : list string; key : string }.

Definition parseKeyInput (keyInput : string) : KeyInput :=
  let parts := map trim (split "+"%char keyInput) in
  if (length parts =? 1)%nat then
    {| modifiers := []; key := List.nth 0 parts EmptyString |}
  else
    {| modifiers := slice_but_last parts;
       key := List.nth (length parts - 1) parts EmptyString |}.

Definition keyMapEntries : list (string * Z) :=
  [ (* Letters (lowercase) *)
    ("a", 0x0061); ("b", 0x0062); ("c", 0x0063); ("d", 0x0064); ("e", 0x0065);
    ("f", 0x0066); ("g", 0x0067); ("h", 0x0068); ("i", 0x0069); ("j", 0x006a);
    ("k", 0x006b); ("l", 0x006c); ("m", 0x006d); ("n", 0x006e); ("o", 0x006f);
    ("p", 0x0070); ("q", 0x0071); ("r", 0x0072); ("s", 0x0073); ("t", 0x0074);
    ("u", 0x0075); ("v", 0x0076); ("w", 0x0077); ("x", 0x0078); ("y", 0x0079);
    ("z", 0x007a);
    (* Letters (uppercase) *)
    ("A", 0x0041); ("B", 0x0042); ("C", 0x0043); ("D", 0x0044); ("E", 0x0045);
    ("F", 0x0046); ("G", 0x0047); ("H", 0x0048); ("I", 0x0049); ("J", 0x004a);
    ("K", 0x004b); ("L", 0x004c); ("M", 0x004d); ("N", 0x004e); ("O", 0x004f);
    ("P", 0x0050); ("Q", 0x0051); ("R", 0x0052); ("S", 0x0053); ("T", 0x0054);
    ("U", 0x0055); ("V", 0x0056); ("W", 0x0057); ("X", 0x0058); ("Y", 0x0059);
    ("Z", 0x005a);
    (* Numbers *)
    ("0", 0x0030); ("1", 0x0031); ("2", 0x0032); ("3", 0x0033); ("4", 0x0034);
    ("5", 0x0035); ("6", 0x0036); ("7", 0x0037); ("8", 0x0038); ("9", 0x0039);
    (* Special keys *)
    ("Return", 0xff0d); ("return", 0xff0d); ("Enter", 0xff0d); ("enter", 0xff0d);
    ("Tab", 0xff09); ("tab", 0xff09);
    ("BackSpace", 0xff08); ("Backspace", 0xff08); ("backspace", 0xff08);
    ("Delete", 0xffff); ("delete", 0xffff);
    ("Escape", 0xff1b); ("escape", 0xff1b); ("Esc", 0xff1b);
    ("Space", 0x0020); ("space", 0x0020); (" ", 0x0020);
    (* Navigation keys *)
    ("Home", 0xff50); ("home", 0xff50);
    ("End", 0xff57); ("end", 0xff57);
    ("Page_Up", 0xff55); ("PageUp", 0xff55); ("pageup", 0xff55); ("Page Up", 0xff55);
    ("Page_Down", 0xff56); ("PageDown", 0xff56); ("pagedown", 0xff56); ("Page Down", 0xff56);
    ("Insert", 0xff63); ("insert", 0xff63);
    (* Arrow keys *)
    ("Up", 0xff52); ("up", 0xff52); ("Down", 0xff54); ("down", 0xff54);
    ("Left", 0xff51); ("left", 0xff51); ("Right", 0xff53); ("right", 0xff53);
    (* Function keys *)
    ("F1", 0xffbe); ("f1", 0xffbe); ("F2", 0xffbf); ("f2", 0xffbf);
    ("F3", 0xffc0); ("f3", 0xffc0); ("F4", 0xffc1); ("f4", 0xffc1);
    ("F5", 0xffc2); ("f5", 0xffc2); ("F6", 0xffc3); ("f6", 0xffc3);
    ("F7", 0xffc4); ("f7", 0xffc4); ("F8", 0xffc5); ("f8", 0xffc5);
    ("F9", 0xffc6); ("f9", 0xffc6); ("F10", 0xffc7); ("f10", 0xffc7);
    ("F11", 0xffc8); ("f11", 0xffc8); ("F12", 0xffc9); ("f12", 0xffc9);
    (* Modifier keys *)
    ("Ctrl", 0xffe3); ("ctrl", 0xffe3); ("Control", 0xffe3); ("control", 0xffe3);
    ("Shift", 0xffe1); ("shift", 0xffe1); ("Alt", 0xffe9); ("alt", 0xffe9);
    ("Super", 0xffeb); ("super", 0xffeb); ("Meta", 0xffe7); ("meta", 0xffe7);
    ("Cmd", 0xffe7); ("cmd", 0xffe7); ("Win", 0xffeb); ("win", 0xffeb);
    (* Common symbols (base/unshifted characters) *)
    ("-", 0x002d); ("=", 0x003d); ("[", 0x005b); ("]", 0x005d);
    ("\", 0x005c); (";", 0x003b); ("'", 0x0027); (",", 0x002c);
    (".", 0x002e); ("/", 0x002f); ("`", 0x0060);
    (* Special characters - direct keysym codes *)
    ("!", 0x0021); ("@", 0x0040); ("#", 0x0023); ("$", 0x0024); ("%", 0x0025);
    ("^", 0x005e); ("&", 0x0026); ("*", 0x002a); ("(", 0x0028); (")", 0x0029);
    ("_", 0x005f); ("+", 0x002b); ("{", 0x007b); ("}", 0x007d); ("|", 0x007c);
    (":", 0x003a); (String (ascii_of_nat 34) EmptyString, 0x0022);
    ("<", 0x003c); (">", 0x003e); ("?", 0x003f);
    ("~", 0x007e) ]%string.

Definition keyMap : gmap string Z := list_to_map keyMapEntries.

Definition getKeysym (key : string) : value :=
  or_else (getProperty keyMap key) (charCodeAt0 key).

(** [shiftChars.includes(char)]: substring test. *)
Definition shiftChars : string :=
  ("~!@#$%^&*()_+{}|:" +:+ String (ascii_of_nat 34) "<>?")%string.

Fixpoint includes (hay needle : string) : bool :=
  String.prefix needle hay ||
  match hay with
  | EmptyString => false
  | String _ rest => includes rest needle
  end.

Definition charNeedsShift (char : string) : bool := includes shiftChars char.

Definition shiftMapEntries : list (string * string) :=
  [ ("~", "`"); ("!", "1"); ("@", "2"); ("#", "3"); ("$", "4"); ("%", "5");
    ("^", "6"); ("&", "7"); ("*", "8"); ("(", "9"); (")", "0"); ("_", "-");
    ("+", "="); ("{", "["); ("}", "]"); ("|", "\"); (":", ";");
    (String (ascii_of_nat 34) EmptyString, "'"); ("<", ","); (">", ".");
    ("?", "/") ]%string.

Definition shiftMap : gmap string string := list_to_map shiftMapEntries.

(** What [shiftMap[char] || char] evaluates to: a string, or a member found
    on the prototype chain of the literal. *)
Inductive keyName : Type :=
| Name (s : string)
| InheritedName (member : string).

Definition getUnshiftedChar (char : string) : keyName :=
  match shiftMap !! char with
  | Some (String c rest) => Name (String c rest)
  | Some EmptyString => Name char
  | None =>
      if bool_decide (char ∈ objectPrototypeKeys)
      then InheritedName char else Name char
  end.

End Keyboard.

(* ===================================================================== *)
(** * The boundary of the RFB client library                               *)
(* ===================================================================== *)

Module Rfb.
Import JS.

Definition Buffer : Type := list Z.

Record PixelFormat := {
  bitsPerPixel : Z; depth : Z;
  bigEndianFlag : bool; trueColorFlag : bool;
  redMax : Z; greenMax : Z; blueMax : Z;
  redShift : Z; greenShift : Z; blueShift : Z
}.

(** What a handler reads off a connected [VncClient]. *)
Record VncClient := {
  clientWidth : option Z;
  clientHeight : option Z;
  fb : option Buffer;
  pixelFormat : PixelFormat
}.

(** What a handler does to the client and to the clock, in program order.
    [requestFrameUpdate] keeps the five arguments positionally, as the
    call sites write them. *)
Inductive call : Type :=
| sendPointerEvent (x y : Z) (buttonMask : value)
| sendKeyEvent (keysym : value) (down : bool)
| requestFrameUpdate (arg0 : bool) (arg1 arg2 arg3 arg4 : Z)
| awaitFrameUpdated (timeoutMs : Z)
| sleep (ms : Z)
| disconnect.

Record FrameUpdateRequest := {
  incremental : bool;
  regionX : Z; regionY : Z; regionWidth : Z; regionHeight : Z
}.

(** Modelled from the spec: the declaration of the library's
    [requestFrameUpdate] is not part of the sources; section 6 of the
    specification gives the collaborator's operation as
    "frame-update request(incremental flag, region)", so the first
    argument is read as the incremental flag and the other four as the
    region's x, y, width and height. *)
Definition frameUpdateRequestOf (c : call) : option FrameUpdateRequest :=
  match c with
  | requestFrameUpdate a0 a1 a2 a3 a4 =>
      Some {| incremental := a0; regionX := a1; regionY := a2;
              regionWidth := a3; regionHeight := a4 |}
  | _ => None
  end.

Definition fullScreenRequest (width height : Z) : FrameUpdateRequest :=
  {| incremental := false; regionX := 0; regionY := 0;
     regionWidth := width; regionHeight := height |}.

End Rfb.

(* ===================================================================== *)
(** * Handlers as programs: emitted calls and an outcome                   *)
(* ===================================================================== *)

Module Prog.
Import Rfb.

(** [throw new Error(...)], by kind; the payload is what the message
    interpolates. *)
Inductive error : Type :=
| ConnectionError (message : string)
| CoordinateOutOfBounds (message : string)
| DelayTooLarge
| InvalidScreenDimensions (width height : Z)
| FrameUpdateTimeout
| NoFramebuffer
| UnsupportedPixelFormat (bytesPerPixel : Q)
| FramebufferSizeMismatch (expected got : Z)
| InvalidBytesPerPixel (bytesPerPixel : Q).

(** An async function body run to completion: the calls it made, in
    order, and either the error it threw or the value it returned. *)
Definition prog (A : Type) : Type := (list call * (error + A))%type.

Definition ret {A} (a : A) : prog A := ([], inr a).
Definition throw {A} (e : error) : prog A := ([], inl e).
Definition emit (c : call) : prog unit := ([c], inr tt).

Definition bind {A B} (p : prog A) (k : A -> prog B) : prog B :=
  match p with
  | (t, inl e) => (t, inl e)
  | (t, inr a) => let '(t', r) := k a in (t ++ t', r)
  end.

(** [try { p } catch (error) { h error }]. *)
Definition tryCatch {A} (p : prog A) (h : error -> prog A) : prog A :=
  match p with
  | (t, inl e) => let '(t', r) := h e in (t ++ t', r)
  | (t, inr a) => (t, inr a)
  end.

(** [try { p } finally { c }] for a clean-up made of one call. *)
Definition finally {A} (p : prog A) (c : call) : prog A :=
  let '(t, r) := p in (t ++ [c], r).

Definition calls {A} (p : prog A) : list call := fst p.
Definition outcome {A} (p : prog A) : error + A := snd p.

(** [for (const x of l) body(x)]. *)
Fixpoint forOf {A} (l : list A) (body : A -> prog unit) : prog unit :=
  match l with
  | [] => ret tt
  | x :: rest => bind (body x) (fun _ => forOf rest body)
  end.

(** [for (let i = n - 1; i >= 0; i--) body(i)]. *)
Fixpoint forDownFrom (n : nat) (body : nat -> prog unit) : prog unit :=
  match n with
  | O => ret tt
  | S i => bind (body i) (fun _ => forDownFrom i body)
  end.

(** [await new Promise(resolve => setTimeout(resolve, ms))]. *)
Definition delay (ms : Z) : prog unit := emit (sleep ms).

(** [{ content: [{ type: 'text', text }, { type: 'image', data, mimeType }] }];
    the image part is optional. *)
Record ToolResult := {
  text : string;
  image : option (string * string)
}.

Definition textResult (s : string) : ToolResult :=
  {| text := s; image := None |}.

(** The request handler's [catch]: a thrown error becomes a text result. *)
Definition surfaced {A} (p : prog A) : option error :=
  match outcome p with inl e => Some e | inr _ => None end.

End Prog.

#[global] Instance prog_ret : MRet Prog.prog := @Prog.ret.
#[global] Instance prog_bind : MBind Prog.prog := fun A B k p => Prog.bind p k.

(* ===================================================================== *)
(** * src/vnc/client.ts                                                    *)
(* ===================================================================== *)

Module Client.
Import JS Rfb Prog.

Record CoordinateValidation := { valid : bool; error : option string }.

Definition boundsMessage (x y screenWidth screenHeight : Z) : string :=
  "Coordinates (" +:+ string_of_Z x +:+ ", " +:+ string_of_Z y
    +:+ ") are outside screen bounds (0, 0) to ("
    +:+ string_of_Z (screenWidth - 1) +:+ ", "
    +:+ string_of_Z (screenHeight - 1) +:+ ")".

Definition validateCoordinates (client : VncClient) (x y : Z)
  : CoordinateValidation :=
  let screenWidth := or_zero (clientWidth client) in
  let screenHeight := or_zero (clientHeight client) in
  if (screenWidth =? 0) || (screenHeight =? 0) then
    {| valid := true; error := None |}
  else if (x <? 0) || (x >=? screenWidth) || (y <? 0) || (y >=? screenHeight) then
    {| valid := false;
       error := Some (boundsMessage x y screenWidth screenHeight) |}
  else
    {| valid := true; error := None |}.

(** ** createConnection: the promise, its listeners and its timer *)

Inductive settlement : Type :=
| Pending
| Resolved
| Rejected (message : string).

(** The executor's closure.  [deadlineArmed] is the 15000 ms timer of the
    last statement: armed by [setTimeout], disarmed only by firing, since
    the handle is dropped and no [clearTimeout] exists in the function.
    [resolveCalls] and [rejectCalls] count the invocations of the two
    settle functions; a promise keeps its first settlement. *)
Record connection := {
  promise : settlement;
  hasReceivedInitialFramebuffer : bool;
  deadlineArmed : bool;
  resolveCalls : nat;
  rejectCalls : nat;
  requests : list call
}.

Inductive event : Type :=
| connected
| authenticated (screenWidth screenHeight : option Z)
| frameUpdated
| errorEvent (message : string)
| disconnectEvent (reason : string)
| deadlineFires.

Definition deadlineMs : Z := 15000.

(** State after the executor has run: listeners registered, [connect]
    called, timer armed. *)
Definition createConnection : connection :=
  {| promise := Pending; hasReceivedInitialFramebuffer := false;
     deadlineArmed := true; resolveCalls := 0; rejectCalls := 0;
     requests := [] |}.

Definition settle (p s : settlement) : settlement :=
  match p with Pending => s | _ => p end.

Definition resolve (c : connection) : connection :=
  {| promise := settle (promise c) Resolved;
     hasReceivedInitialFramebuffer := hasReceivedInitialFramebuffer c;
     deadlineArmed := deadlineArmed c;
     resolveCalls := S (resolveCalls c); rejectCalls := rejectCalls c;
     requests := requests c |}.

Definition reject (message : string) (c : connection) : connection :=
  {| promise := settle (promise c) (Rejected message);
     hasReceivedInitialFramebuffer := hasReceivedInitialFramebuffer c;
     deadlineArmed := deadlineArmed c;
     resolveCalls := resolveCalls c; rejectCalls := S (rejectCalls c);
     requests := requests c |}.

(** One turn of the event loop: the listener (or timer callback) of [e]. *)
Definition dispatch (c : connection) (e : event) : connection :=
  match e with
  | connected => c
  | authenticated w h =>
      {| promise := promise c;
         hasReceivedInitialFramebuffer := hasReceivedInitialFramebuffer c;
         deadlineArmed := deadlineArmed c;
         resolveCalls := resolveCalls c; rejectCalls := rejectCalls c;
         requests := requests c ++
           [requestFrameUpdate false 0 0 (or_zero w) (or_zero h)] |}
  | frameUpdated =>
      if hasReceivedInitialFramebuffer c then c
      else resolve
             {| promise := promise c;
                hasReceivedInitialFramebuffer := true;
                deadlineArmed := deadlineArmed c;
                resolveCalls := resolveCalls c; rejectCalls := rejectCalls c;
                requests := requests c |}
  | errorEvent message =>
      reject ("VNC connection error: " +:+ message) c
  | disconnectEvent _ => c
  | deadlineFires =>
      if deadlineArmed c then
        reject "VNC connection timeout"
          {| promise := promise c;
             hasReceivedInitialFramebuffer := hasReceivedInitialFramebuffer c;
             deadlineArmed := false;
             resolveCalls := resolveCalls c; rejectCalls := rejectCalls c;
             requests := requests c |}
      else c
  end.

Definition run (events : list event) : connection :=
  fold_left dispatch events createConnection.

(** What [await createConnection()] yields once the promise is settled. *)
Definition awaited (c : connection) (client : VncClient)
  : option (string + VncClient) :=
  match promise c with
  | Pending => None
  | Resolved => Some (inr client)
  | Rejected message => Some (inl message)
  end.

(** [executeWithConnection(callback)], given how [await createConnection()]
    came out. *)
Definition executeWithConnection {A}
    (connection : string + VncClient) (callback : VncClient -> prog A)
  : prog A :=
  match connection with
  | inl message => throw (ConnectionError message)
  | inr client => finally (callback client) disconnect
  end.

End Client.

(* ===================================================================== *)
(** * src/tools/input.ts                                                   *)
(* ===================================================================== *)

Module Input.
Import JS Keyboard Rfb Prog Client.

Record ClickArgs := {
  x : Z; y : Z; button : option string; double : option bool
}.

Definition buttonMap : gmap string Z :=
  list_to_map [("left", 0x01); ("right", 0x04); ("middle", 0x02)]%string.

Definition checkCoordinates (client : VncClient) (x y : Z) : prog unit :=
  let coordValidation := validateCoordinates client x y in
  if negb (valid coordValidation)
  then throw (CoordinateOutOfBounds (default EmptyString (error coordValidation)))
  else ret tt.

Definition handleClick (connection : string + VncClient) (args : ClickArgs)
  : prog ToolResult :=
  executeWithConnection connection (fun client =>
    checkCoordinates client (x args) (y args) ;;
    let button := string_or (button args) "left" in
    let isDouble := default false (double args) in
    let buttonMask :=
      or_else (getProperty buttonMap button) (getProperty buttonMap "left") in
    (if isDouble then
       emit (sendPointerEvent (x args) (y args) buttonMask) ;;
       delay 50 ;;
       emit (sendPointerEvent (x args) (y args) (Num 0)) ;;
       delay 50 ;;
       emit (sendPointerEvent (x args) (y args) buttonMask) ;;
       delay 50 ;;
       emit (sendPointerEvent (x args) (y args) (Num 0))
     else
       emit (sendPointerEvent (x args) (y args) buttonMask) ;;
       delay 100 ;;
       emit (sendPointerEvent (x args) (y args) (Num 0))) ;;
    let clickType := if isDouble then "double-clicked" else "clicked" in
    ret (textResult (clickType +:+ " " +:+ button +:+ " button at ("
                       +:+ string_of_Z (x args) +:+ ", "
                       +:+ string_of_Z (y args) +:+ ")"))).

Definition handleMoveMouse (connection : string + VncClient) (x y : Z)
  : prog ToolResult :=
  executeWithConnection connection (fun client =>
    checkCoordinates client x y ;;
    emit (sendPointerEvent x y (Num 0)) ;;
    ret (textResult ("Moved mouse to (" +:+ string_of_Z x +:+ ", "
                       +:+ string_of_Z y +:+ ")"))).

Definition handleKeyPress (connection : string + VncClient) (argsKey : string)
  : prog ToolResult :=
  executeWithConnection connection (fun client =>
    let parsed := parseKeyInput argsKey in
    let modifiers := modifiers parsed in
    let key := key parsed in
    (if (length modifiers =? 0)%nat then
       let keysym := getKeysym key in
       emit (sendKeyEvent keysym true) ;;
       delay 50 ;;
       emit (sendKeyEvent keysym false)
     else
       let modifierKeysyms := map getKeysym modifiers in
       let mainKeysym := getKeysym key in
       forOf modifierKeysyms (fun modKeysym =>
         emit (sendKeyEvent modKeysym true) ;; delay 10) ;;
       emit (sendKeyEvent mainKeysym true) ;;
       delay 50 ;;
       emit (sendKeyEvent mainKeysym false) ;;
       delay 10 ;;
       forDownFrom (length modifierKeysyms) (fun i =>
         emit (sendKeyEvent (List.nth i modifierKeysyms Undefined) false) ;;
         delay 10)) ;;
    ret (textResult ("Pressed key combination: " +:+ argsKey))).

(** The character class of the regular expression in typeString. *)
Definition specialChars : string :=
  ("|:;&<>?/\~`!@#$%^*()+=[]{}'" +:+ String (ascii_of_nat 34) ",-")%string.

Definition isSpecialChar (c : ascii) : bool :=
  existsb (Ascii.eqb c) (list_ascii_of_string specialChars).

(** [/[...]/.test(text)]. *)
Definition hasSpecialChars (text : string) : bool :=
  existsb isSpecialChar (list_ascii_of_string text).

(** The values [for (const char of text)] ranges over. *)
Definition characters (text : string) : list string :=
  map (fun c => String c EmptyString) (list_ascii_of_string text).

(** [getKeysym(needsShift ? getUnshiftedChar(char) : char)].  A string that
    needs shift is never an inherited name, so the second branch of the
    inner match is not reached (see [unshifted_is_a_name]). *)
Definition typingKeysym (char : string) : value :=
  if charNeedsShift char then
    match getUnshiftedChar char with
    | Name s => getKeysym s
    | InheritedName _ => Undefined
    end
  else getKeysym char.

(** The [try] block of typeCharacter; its [catch] only rewraps an exception
    of the library. *)
Definition typeCharacter (char : string) (keyHoldTime betweenKeyDelay : Z)
  : prog unit :=
  let needsShift := charNeedsShift char in
  let keysym := typingKeysym char in
  let shiftKeysym := getKeysym "Shift" in
  (if needsShift then
     emit (sendKeyEvent shiftKeysym true) ;; delay 10
   else mret tt) ;;
  emit (sendKeyEvent keysym true) ;;
  delay keyHoldTime ;;
  emit (sendKeyEvent keysym false) ;;
  (if needsShift then
     delay 10 ;; emit (sendKeyEvent shiftKeysym false)
   else mret tt) ;;
  delay betweenKeyDelay.

Definition typeString (text : string) : prog unit :=
  let isLongText := (10 <? String.length text)%nat in
  let useSlowTyping := hasSpecialChars text || isLongText in
  let keyHoldTime := if useSlowTyping then 75 else 50 in
  let betweenKeyDelay := if useSlowTyping then 100 else 50 in
  forOf (characters text) (fun char =>
    typeCharacter char keyHoldTime betweenKeyDelay).

(** Press and release of Return, held 50 ms. *)
Definition pressEnter : prog unit :=
  let enterKeysym := getKeysym "Return" in
  emit (sendKeyEvent enterKeysym true) ;;
  delay 50 ;;
  emit (sendKeyEvent enterKeysym false).

Definition handleTypeText (connection : string + VncClient)
    (argsText : string) (argsEnter : option bool) : prog ToolResult :=
  executeWithConnection connection (fun client =>
    typeString argsText ;;
    (if default false argsEnter then pressEnter else mret tt) ;;
    let enterText := if default false argsEnter then " + Enter" else "" in
    ret (textResult ("Typed text: " +:+ argsText +:+ enterText))).

Definition handleTypeMultiline (connection : string + VncClient)
    (argsLines : list string) : prog ToolResult :=
  executeWithConnection connection (fun client =>
    forOf argsLines (fun line =>
      typeString line ;;
      pressEnter ;;
      delay 100) ;;
    ret (textResult ("Typed " +:+ string_of_Z (Z.of_nat (length argsLines))
                       +:+ " lines: " +:+ join " | " argsLines))).

End Input.

(* ===================================================================== *)
(** * src/tools/screenshot.ts                                              *)
(* ===================================================================== *)

Module Screenshot.
Import JS Rfb Prog Client.

(** ** Buffers and 32-bit operators *)

(** Store into a [Uint8Array] slot. *)
Definition toUint8 (v : Z) : Z := v mod 256.

(** [Buffer.alloc(n)]. *)
Definition alloc (n : Z) : Buffer := replicate (Z.to_nat n) 0.

(** [buffer[i]] where the value is then stored into a buffer or fed to a
    bit operator: [undefined] counts as 0 there. *)
Definition byteAt (buffer : Buffer) (i : nat) : Z := default 0 (buffer !! i).

(** [target[i] = v]; a store past the end is dropped. *)
Definition store (i : nat) (v : Z) (target : Buffer) : Buffer :=
  <[i := toUint8 v]> target.

Definition toInt32 (n : Z) : Z :=
  let m := n mod 2 ^ 32 in if m <? 2 ^ 31 then m else m - 2 ^ 32.

(** [a >> n], [a << n], [a | b], [a & b]. *)
Definition sar (a n : Z) : Z := Z.shiftr (toInt32 a) (Z.land n 31).
Definition shl (a n : Z) : Z := toInt32 (Z.shiftl (toInt32 a) (Z.land n 31)).
Definition bor (a b : Z) : Z := toInt32 (Z.lor (toInt32 a) (toInt32 b)).
Definition band (a b : Z) : Z := toInt32 (Z.land (toInt32 a) (toInt32 b)).

(** [buffer.readUInt32LE(offset)]; [None] is the RangeError. *)
Definition readUInt32LE (buffer : Buffer) (offset : nat) : option Z :=
  match buffer !! offset, buffer !! (offset + 1)%nat,
        buffer !! (offset + 2)%nat, buffer !! (offset + 3)%nat with
  | Some b0, Some b1, Some b2, Some b3 =>
      Some (b0 + b1 * 2 ^ 8 + b2 * 2 ^ 16 + b3 * 2 ^ 24)
  | _, _, _, _ => None
  end.

Definition len (buffer : Buffer) : Z := Z.of_nat (length buffer).

(** [buffer.length / pixelCount]. *)
Definition bytesPerPixelOf (buffer : Buffer) (pixelCount : Z) : Q :=
  (inject_Z (len buffer) / inject_Z pixelCount)%Q.

(** [for (let i = 0; i < pixelCount; i++) target = body i target]. *)
Definition forPixels (pixelCount : Z) (body : nat -> Buffer -> Buffer)
    (target : Buffer) : Buffer :=
  foldl (fun t i => body i t) target (seq 0 (Z.to_nat pixelCount)).

(** ** convertToRGBA *)

Definition rgb24Pixel (buffer : Buffer) (i : nat) (target : Buffer) : Buffer :=
  let srcOffset := (i * 3)%nat in
  let dstOffset := (i * 4)%nat in
  store (dstOffset + 3) 255
    (store (dstOffset + 2) (byteAt buffer (srcOffset + 2))
      (store (dstOffset + 1) (byteAt buffer (srcOffset + 1))
        (store dstOffset (byteAt buffer srcOffset) target))).

Definition rgb565Pixel (buffer : Buffer) (i : nat) (target : Buffer) : Buffer :=
  let srcOffset := (i * 2)%nat in
  let dstOffset := (i * 4)%nat in
  let pixel16 := bor (byteAt buffer srcOffset)
                     (shl (byteAt buffer (srcOffset + 1)) 8) in
  let r5 := band (sar pixel16 11) 0x1F in
  let g6 := band (sar pixel16 5) 0x3F in
  let b5 := band pixel16 0x1F in
  store (dstOffset + 3) 255
    (store (dstOffset + 2) (b5 * 255 / 31)
      (store (dstOffset + 1) (g6 * 255 / 63)
        (store dstOffset (r5 * 255 / 31) target))).

Definition indexedPixel (buffer : Buffer) (i : nat) (target : Buffer) : Buffer :=
  let dstOffset := (i * 4)%nat in
  let colorIndex := byteAt buffer i in
  store (dstOffset + 3) 255
    (store (dstOffset + 2) colorIndex
      (store (dstOffset + 1) colorIndex
        (store dstOffset colorIndex target))).

Definition convertToRGBA (buffer : Buffer) (width height : Z)
    (pixelFormat : PixelFormat) : prog Buffer :=
  let pixelCount := width * height in
  let sourceBytesPerPixel := bytesPerPixelOf buffer pixelCount in
  let targetBuffer := alloc (pixelCount * 4) in
  if Qeq_bool sourceBytesPerPixel 3 then
    mret (forPixels pixelCount (rgb24Pixel buffer) targetBuffer)
  else if Qeq_bool sourceBytesPerPixel 2 then
    mret (forPixels pixelCount (rgb565Pixel buffer) targetBuffer)
  else if Qeq_bool sourceBytesPerPixel 1 then
    mret (forPixels pixelCount (indexedPixel buffer) targetBuffer)
  else throw (UnsupportedPixelFormat sourceBytesPerPixel).

(** ** needsPixelFormatConversion and convertBGRXToRGBA

    Both are defined in the file and called from nowhere. *)

Definition needsPixelFormatConversion (pixelFormat : PixelFormat) : bool :=
  let isStandardRGBA :=
    (redShift pixelFormat =? 0) && (greenShift pixelFormat =? 8) &&
    (blueShift pixelFormat =? 16) && (redMax pixelFormat =? 255) &&
    (greenMax pixelFormat =? 255) && (blueMax pixelFormat =? 255) in
  negb isStandardRGBA.

Definition bgrxPixel (pixelFormat : PixelFormat) (pixel32 : Z) : list Z :=
  let '(r, g, b) :=
    if redMax pixelFormat =? 65280 then
      (band (sar pixel32 (redShift pixelFormat + 8)) 0xFF,
       band (sar pixel32 (greenShift pixelFormat + 8)) 0xFF,
       band (sar pixel32 (blueShift pixelFormat + 8)) 0xFF)
    else
      (band (sar pixel32 (redShift pixelFormat)) 0xFF,
       band (sar pixel32 (greenShift pixelFormat)) 0xFF,
       band (sar pixel32 (blueShift pixelFormat)) 0xFF) in
  [r; g; b; 255].

(** [None] when a [readUInt32LE] falls outside the buffer. *)
Definition convertBGRXToRGBA (buffer : Buffer) (width height : Z)
    (pixelFormat : PixelFormat) : option Buffer :=
  let pixelCount := width * height in
  foldl (fun acc i =>
           target ← acc;
           pixel32 ← readUInt32LE buffer (i * 4);
           match bgrxPixel pixelFormat pixel32 with
           | [r; g; b; a] =>
               Some (store (i * 4 + 3) a
                      (store (i * 4 + 2) b
                        (store (i * 4 + 1) g
                          (store (i * 4) r target))))
           | _ => None
           end)
        (Some (alloc (pixelCount * 4)))
        (seq 0 (Z.to_nat pixelCount)).

(** ** captureScreenshotWithDimensions and handleScreenshot *)

(** A [sharp(raw, { raw: { width, height, channels: 4 } })] pipeline ending
    in [.jpeg(...).toBuffer()], with an optional [.resize(w, h)] stage. *)
Record SharpJob := {
  raw : Buffer; rawWidth : Z; rawHeight : Z;
  resize : option (Z * Z);
  quality : Z; progressive : bool
}.

Definition sizeLimit : Z := 800000.

(** [Math.sqrt(800000 / length)], over the reals. *)
Definition scaleFactorOf (length : Z) : R :=
  sqrt (IZR sizeLimit / IZR length).

(** [Math.floor(dim * scaleFactor)]. *)
Definition scaled (dim : Z) (scaleFactor : R) : Z :=
  Zfloor (IZR dim * scaleFactor).

Record ScreenshotArgs := { delay : option Z }.

Definition frameUpdateTimeoutMs : Z := 2000.

(** The [try] block of handleScreenshot.  [frameEvent] is the buffer of the
    'frameUpdated' event when one is dispatched before the timer fires,
    and [None] when the timer fires first and rejects. *)
Definition requestAndAwaitFrame (width height : Z) (frameEvent : option Buffer)
  : prog (option Buffer) :=
  emit (requestFrameUpdate true 0 0 width height) ;;
  emit (awaitFrameUpdated frameUpdateTimeoutMs) ;;
  match frameEvent with
  | Some fb => mret (Some fb)
  | None => throw FrameUpdateTimeout
  end.

(** The block with its [catch]: fall back to [client.fb]. *)
Definition captureFramebuffer (client : VncClient) (width height : Z)
    (frameEvent : option Buffer) : prog (option Buffer) :=
  tryCatch (requestAndAwaitFrame width height frameEvent)
           (fun _ => mret (fb client)).

(** "Validate final framebuffer size". *)
Definition validateFramebufferSize (framebuffer : Buffer) (width height : Z)
  : prog Buffer :=
  let expectedBufferSize := width * height * 4 in
  if negb (len framebuffer =? expectedBufferSize)
  then throw (FramebufferSizeMismatch expectedBufferSize (len framebuffer))
  else mret framebuffer.

(** From the bytes-per-pixel analysis to the size validation. *)
Definition normalizeFramebuffer (framebuffer : Buffer) (width height : Z)
    (pixelFormat : PixelFormat) : prog Buffer :=
  let actualBytesPerPixel := bytesPerPixelOf framebuffer (width * height) in
  framebuffer ←
    (if negb (Qeq_bool actualBytesPerPixel 4)
     then convertToRGBA framebuffer width height pixelFormat
     else mret framebuffer) ;
  validateFramebufferSize framebuffer width height.

Section Encoder.
(** The image library and [Buffer.toString('base64')]. *)
Variable sharp : SharpJob -> Buffer.
Variable base64 : Buffer -> string.

Definition firstPass (framebuffer : Buffer) (width height : Z) : SharpJob :=
  {| raw := framebuffer; rawWidth := width; rawHeight := height;
     resize := None; quality := 80; progressive := true |}.

Definition secondPass (framebuffer : Buffer) (width height : Z)
    (finalWidth finalHeight : Z) : SharpJob :=
  {| raw := framebuffer; rawWidth := width; rawHeight := height;
     resize := Some (finalWidth, finalHeight);
     quality := 75; progressive := false |}.

(** [hasCorruptionPatterns] only writes to the console; its result guards
    one more console line, so it leaves no trace here. *)
Definition captureScreenshotWithDimensions (width height : Z)
    (framebuffer : Buffer) (delay : Z) : prog ToolResult :=
  let pixelCount := width * height in
  let bytesPerPixel := bytesPerPixelOf framebuffer pixelCount in
  (if negb (Qeq_bool bytesPerPixel 4)
   then throw (InvalidBytesPerPixel bytesPerPixel) else mret tt) ;;
  let imageBuffer := sharp (firstPass framebuffer width height) in
  let '(finalBuffer, finalWidth, finalHeight) :=
    if len imageBuffer >? sizeLimit then
      let scaleFactor := scaleFactorOf (len imageBuffer) in
      let finalWidth := scaled width scaleFactor in
      let finalHeight := scaled height scaleFactor in
      (sharp (secondPass framebuffer width height finalWidth finalHeight),
       finalWidth, finalHeight)
    else (imageBuffer, width, height) in
  let base64Data := base64 finalBuffer in
  let delayText :=
    if delay >? 0
    then " (after " +:+ string_of_Z delay +:+ "ms delay)" else "" in
  let sizeInfo :=
    if negb (finalWidth =? width)
    then " (resized from " +:+ string_of_Z width +:+ "x"
           +:+ string_of_Z height +:+ ")"
    else "" in
  mret {| text := "Screenshot captured (" +:+ string_of_Z finalWidth +:+ "x"
                    +:+ string_of_Z finalHeight +:+ ")" +:+ sizeInfo
                    +:+ delayText;
          image := Some (base64Data, "image/jpeg") |}.

Definition handleScreenshot (connection : string + VncClient)
    (frameEvent : option Buffer) (args : ScreenshotArgs) : prog ToolResult :=
  let delay := or_zero (delay args) in
  (if delay >? 0 then
     (if delay >? 300000 then throw DelayTooLarge else mret tt) ;;
     Prog.delay delay
   else mret tt) ;;
  executeWithConnection connection (fun client =>
    let width := or_zero (clientWidth client) in
    let height := or_zero (clientHeight client) in
    (if (width =? 0) || (height =? 0)
     then throw (InvalidScreenDimensions width height) else mret tt) ;;
    framebuffer ← captureFramebuffer client width height frameEvent ;
    match framebuffer with
    | None => throw NoFramebuffer
    | Some framebuffer =>
        framebuffer ←
          normalizeFramebuffer framebuffer width height (pixelFormat client) ;
        captureScreenshotWithDimensions width height framebuffer delay
    end).

End Encoder.

(** ** hasCorruptionPatterns *)

(** [framebuffer[i] === v]: false past the end. *)
Definition byteIs (framebuffer : Buffer) (i : nat) (v : Z) : bool :=
  match framebuffer !! i with
  | Some b => b =? v
  | None => false
  end.

(** One turn of the sampling loop at pixel [p] (byte offset [4 * p]). *)
Definition samplePixel (framebuffer : Buffer) (counts : Z * Z) (p : nat) : Z * Z :=
  let i := (4 * p)%nat in
  let '(blackPixels, whitePixels) := counts in
  let blackPixels :=
    if byteIs framebuffer i 0 && byteIs framebuffer (i + 1) 0
       && byteIs framebuffer (i + 2) 0
    then blackPixels + 1 else blackPixels in
  let whitePixels :=
    if byteIs framebuffer i 255 && byteIs framebuffer (i + 1) 255
       && byteIs framebuffer (i + 2) 255
    then whitePixels + 1 else whitePixels in
  (blackPixels, whitePixels).

(** The offsets 16, 32, ... below [limit]. *)
Definition windowOffsets (limit : Z) : list nat :=
  map (fun k => (16 * k)%nat) (seq 1 (Z.to_nat ((limit - 1) / 16))).

(** [framebuffer.slice(i, i + 16)]. *)
Definition window (framebuffer : Buffer) (i : nat) : Buffer :=
  take 16 (drop i framebuffer).

Definition patternRepeatsOf (framebuffer : Buffer) : Z :=
  let pattern := window framebuffer 0 in
  foldl (fun patternRepeats i =>
           if bool_decide (window framebuffer i = pattern)
           then patternRepeats + 1 else patternRepeats)
        0 (windowOffsets (Z.min (len framebuffer) 1000)).

(** The two ratios are exact quotients; against them 0.9 is nine tenths. *)
Definition hasCorruptionPatterns (framebuffer : Buffer) (width height : Z) : bool :=
  let sampleSize := Z.min 1000 (width * height) in
  let '(blackPixels, whitePixels) :=
    foldl (samplePixel framebuffer) (0, 0) (seq 0 (Z.to_nat sampleSize)) in
  let blackRatio := (inject_Z blackPixels / inject_Z sampleSize)%Q in
  let whiteRatio := (inject_Z whitePixels / inject_Z sampleSize)%Q in
  if negb (Qle_bool blackRatio (9 # 10)) || negb (Qle_bool whiteRatio (9 # 10))
  then true
  else if patternRepeatsOf framebuffer >? 50 then true
  else false.

End Screenshot.

(* ===================================================================== *)
(** * Vocabulary of the statements, and example inputs                     *)
(* ===================================================================== *)

Import JS Keyboard Rfb Prog Client Input Screenshot.

(** A name that [split] leaves in one piece. *)
Fixpoint plusFree (s : string) : bool :=
  match s with
  | EmptyString => true
  | String c rest => negb (Ascii.eqb c "+") && plusFree rest
  end.

(** Key events of one pass over the modifiers, each followed by 10 ms. *)
Definition pressRelease (keysyms : list value) (down : bool) : list call :=
  flat_map (fun k => [sendKeyEvent k down; sleep 10]) keysyms.

(** Pointer events of a single and of a double click. *)
Definition clickCalls (x y : Z) (mask : value) (isDouble : bool) : list call :=
  if isDouble then
    [sendPointerEvent x y mask; sleep 50; sendPointerEvent x y (Num 0); sleep 50;
     sendPointerEvent x y mask; sleep 50; sendPointerEvent x y (Num 0)]
  else
    [sendPointerEvent x y mask; sleep 100; sendPointerEvent x y (Num 0)].

(** Sessions, arguments and frames used as examples. *)
Definition screen1024x768 : VncClient :=
  {| clientWidth := Some 1024; clientHeight := Some 768; fb := None;
     pixelFormat := Build_PixelFormat 32 24 false true 255 255 255 16 8 0 |}.

Definition emptyButtonClick : ClickArgs :=
  {| x := 10; y := 20; button := Some EmptyString; double := None |}.

Definition bgrx : PixelFormat :=
  {| bitsPerPixel := 32; depth := 24; bigEndianFlag := false; trueColorFlag := true;
     redMax := 255; greenMax := 255; blueMax := 255;
     redShift := 16; greenShift := 8; blueShift := 0 |}.

Definition bgrxFrame : Buffer := [0x11; 0x22; 0x33; 0x00].

Definition rgb565Red : Buffer := [0x00; 0xF8].

Definition onePixel : Buffer := [0; 0; 0; 255].

Definition rgb24TwoPixels : Buffer := [10; 20; 30; 40; 50; 60].

Definition rgb565WhiteBlue : Buffer := [0xFF; 0xFF; 0x1F; 0x00].

Definition noBufferYet : VncClient :=
  {| clientWidth := Some 1; clientHeight := Some 1; fb := None;
     pixelFormat := bgrx |}.


(** Closes [s ∉ l] for a literal string and a literal list. *)
Ltac not_listed :=
  let H := fresh "H" in
  intros H; apply (bool_decide_eq_true_2 _) in H; vm_compute in H; discriminate H.

#[global] Instance value_eq_dec : EqDecision value.
Proof. solve_decision. Defined.

#[global] Instance keyName_eq_dec : EqDecision keyName.
Proof. solve_decision. Defined.

(** Number of occurrences of a character. *)
Fixpoint occurrences (c : ascii) (s : string) : nat :=
  match s with
  | EmptyString => 0
  | String d rest => (if Ascii.eqb d c then 1 else 0) + occurrences c rest
  end.

(** The keys held down after a run of calls, most recent first, starting
    from [held]; [None] when a key is released that is not the most
    recently pressed one still held. *)
Fixpoint heldAfter (held : list value) (cs : list call) : option (list value) :=
  match cs with
  | [] => Some held
  | sendKeyEvent k true :: rest => heldAfter (k :: held) rest
  | sendKeyEvent k false :: rest =>
      match held with
      | top :: below => if bool_decide (top = k) then heldAfter below rest else None
      | [] => None
      end
  | _ :: rest => heldAfter held rest
  end.


(** [shiftMap] read backwards: the character a base key gives with Shift. *)
Definition shiftedOf (base : ascii) : ascii :=
  match List.find (fun entry => String.eqb (snd entry) (String base EmptyString))
                  shiftMapEntries with
  | Some (String c EmptyString, _) => c
  | _ => base
  end.

Definition shiftKeysym : Z := 0xffe1.



(** A string with no white space at its head. *)
Definition headClean (s : string) : bool :=
  match s with
  | EmptyString => true
  | String c _ => negb (isWhiteSpace c)
  end.

(** The calls typeCharacter makes for one character. *)
Definition characterCalls (char : string) (hold gap : Z) : list call :=
  let keysym := typingKeysym char in
  if charNeedsShift char then
    [sendKeyEvent (Num shiftKeysym) true; sleep 10;
     sendKeyEvent keysym true; sleep hold; sendKeyEvent keysym false;
     sleep 10; sendKeyEvent (Num shiftKeysym) false; sleep gap]
  else
    [sendKeyEvent keysym true; sleep hold; sendKeyEvent keysym false; sleep gap].

(** Hold and gap chosen by typeString. *)
Definition slowTyping (text : string) : bool :=
  hasSpecialChars text || (10 <? String.length text)%nat.

Definition holdOf (text : string) : Z := if slowTyping text then 75 else 50.
Definition gapOf (text : string) : Z := if slowTyping text then 100 else 50.


Definition returnKeysym : Z := 0xff0d.

(** The calls typeString makes for a text, and those of one Enter. *)
Definition typedCalls (text : string) : list call :=
  flat_map (fun char => characterCalls char (holdOf text) (gapOf text))
           (characters text).

Definition enterCalls : list call :=
  [sendKeyEvent (Num returnKeysym) true; sleep 50;
   sendKeyEvent (Num returnKeysym) false].

(** The calls of one turn of the loop of handleTypeMultiline. *)
Definition lineCalls (line : string) : list call :=
  typedCalls line ++ enterCalls ++ [sleep 100].

(** How often a run of calls closes the session. *)
Fixpoint disconnects (cs : list call) : nat :=
  match cs with
  | [] => 0
  | disconnect :: rest => S (disconnects rest)
  | _ :: rest => disconnects rest
  end.

(** Events that are neither a frame, nor an error, nor the deadline. *)
Definition isQuiet (e : event) : bool :=
  match e with
  | connected | authenticated _ _ | disconnectEvent _ => true
  | _ => false
  end.

(** The four stores of one loop turn of a converter, at pixel [i]. *)
Definition writeQuad (i : nat) (v0 v1 v2 v3 : Z) (target : Buffer) : Buffer :=
  store (i * 4 + 3) v3
    (store (i * 4 + 2) v2 (store (i * 4 + 1) v1 (store (i * 4) v0 target))).

(** A buffer of bytes. *)
Definition allBytes (buffer : Buffer) : Prop :=
  Forall (fun b => 0 <= b < 256) buffer.

(** The 16-bit little-endian pixel of two bytes, and its 5-6-5 channels
    scaled to 8 bits. *)
Definition pixel16Of (lo hi : Z) : Z := lo + 256 * hi.
Definition red565 (p : Z) : Z := (p / 2048) * 255 / 31.
Definition green565 (p : Z) : Z := ((p / 32) mod 64) * 255 / 63.
Definition blue565 (p : Z) : Z := (p mod 32) * 255 / 31.

(** The pointer events of a run of calls, as (x, y, mask). *)
Fixpoint pointerEvents (cs : list call) : list (Z * Z * value) :=
  match cs with
  | [] => []
  | sendPointerEvent x y m :: rest => (x, y, m) :: pointerEvents rest
  | _ :: rest => pointerEvents rest
  end.

(* ===================================================================== *)
(** * Properties                                                           *)
(* ===================================================================== *)

(** ** Strings *)

Lemma split_nonempty sep s : split sep s <> [].
Proof.
  destruct s as [|c rest]; simpl; [discriminate|].
  destruct (Ascii.eqb c sep); [discriminate|].
  destruct (split sep rest); discriminate.
Qed.

Lemma split_plusFree s : plusFree s = true -> split "+" s = [s].
Proof.
  induction s as [|c rest IH]; simpl; [reflexivity|].
  intros [Hc Hrest]%andb_true_iff.
  apply negb_true_iff in Hc. rewrite Hc, (IH Hrest). reflexivity.
Qed.

Lemma split_append_plus s t :
  plusFree s = true -> split "+" (s +:+ "+" +:+ t) = s :: split "+" t.
Proof.
  induction s as [|c rest IH]; simpl; [reflexivity|].
  intros [Hc Hrest]%andb_true_iff.
  apply negb_true_iff in Hc. rewrite Hc.
  specialize (IH Hrest). simpl in IH. rewrite IH. reflexivity.
Qed.

Lemma split_join parts :
  parts <> [] -> Forall (fun p => plusFree p = true) parts ->
  split "+" (join "+" parts) = parts.
Proof.
  induction parts as [|p rest IH]; [congruence|].
  intros _ Hall. inversion Hall as [|? ? Hp Hrest]; subst.
  destruct rest as [|q rest'].
  - simpl. apply split_plusFree, Hp.
  - change (join "+" (p :: q :: rest')) with (p +:+ "+" +:+ join "+" (q :: rest')).
    rewrite split_append_plus by exact Hp.
    f_equal. apply IH; [discriminate | exact Hrest].
Qed.

Lemma removelast_snoc {A} (l : list A) (a : A) : removelast (l ++ [a]) = l.
Proof. apply removelast_last. Qed.

Lemma parseKeyInput_join (mods : list string) (k : string) :
  mods <> [] -> Forall (fun p => plusFree p = true) mods -> plusFree k = true ->
  parseKeyInput (join "+" (mods ++ [k])) =
    {| modifiers := map trim mods; key := trim k |}.
Proof.
  intros Hne Hmods Hk. unfold parseKeyInput.
  rewrite split_join.
  2: { destruct mods; discriminate. }
  2: { apply Forall_app; split; [exact Hmods | repeat constructor; exact Hk]. }
  rewrite map_app. change (map trim [k]) with [trim k].
  set (ms := map trim mods).
  assert (Hlen : length ms = length mods) by apply length_map.
  clearbody ms.
  rewrite length_app. simpl length.
  destruct mods as [|m mods']; [congruence|].
  replace (length ms + 1 =? 1)%nat with false
    by (symmetry; apply Nat.eqb_neq; simpl in Hlen; lia).
  unfold slice_but_last. rewrite removelast_snoc.
  f_equal.
  replace (length ms + 1 - 1)%nat with (length ms) by lia.
  rewrite nth_middle. reflexivity.
Qed.

(** ** Programs *)

Lemma forOf_emit_delay {A} (l : list A) (f : A -> call) (ms : Z) :
  forOf l (fun a => emit (f a) ;; Prog.delay ms) =
    (flat_map (fun a => [f a; sleep ms]) l, inr tt).
Proof.
  unfold mbind, prog_bind.
  induction l as [|a rest IH]; [reflexivity|].
  simpl in IH |- *. rewrite IH. reflexivity.
Qed.

Lemma forDownFrom_emit_delay (l : list value) (f : value -> call) (ms : Z) (n : nat) :
  (n <= length l)%nat ->
  forDownFrom n (fun i => emit (f (List.nth i l Undefined)) ;; Prog.delay ms) =
    (flat_map (fun a => [f a; sleep ms]) (rev (firstn n l)), inr tt).
Proof.
  unfold mbind, prog_bind.
  induction n as [|n IH]; intros Hn; [reflexivity|].
  specialize (IH ltac:(lia)).
  destruct (lookup_lt_is_Some_2 l n ltac:(lia)) as [a Ha].
  assert (Hnth : List.nth n l Undefined = a) by (now rewrite nth_lookup, Ha).
  rewrite (take_S_r _ _ _ Ha), rev_app_distr.
  simpl in IH |- *. rewrite IH, Hnth. reflexivity.
Qed.

Lemma flat_map_map {A B C} (g : A -> B) (f : B -> list C) (l : list A) :
  flat_map f (map g l) = flat_map (fun a => f (g a)) l.
Proof. induction l as [|a rest IH]; simpl; [reflexivity | now rewrite IH]. Qed.

(** ** Keysym lookup *)

(** Outside the table and outside the inherited names, the lookup is the
    code of the first character. *)
Lemma getKeysym_unmapped (key : string) :
  keyMap !! key = None -> key ∉ objectPrototypeKeys ->
  getKeysym key = charCodeAt0 key.
Proof.
  intros Hmap Hproto. unfold getKeysym, getProperty. rewrite Hmap.
  rewrite bool_decide_eq_false_2 by exact Hproto. reflexivity.
Qed.

(** An inherited name is found on the prototype and returned as it is. *)
Lemma getKeysym_inherited (key : string) :
  keyMap !! key = None -> key ∈ objectPrototypeKeys ->
  getKeysym key = Inherited key.
Proof.
  intros Hmap Hproto. unfold getKeysym, getProperty. rewrite Hmap.
  rewrite bool_decide_eq_true_2 by exact Hproto. reflexivity.
Qed.

Lemma getKeysym_mapped (key : string) (n : Z) :
  keyMap !! key = Some n -> n <> 0 -> getKeysym key = Num n.
Proof.
  intros Hmap Hn. unfold getKeysym, getProperty, or_else. rewrite Hmap.
  simpl. now apply Z.eqb_neq in Hn as ->.
Qed.

(** C10, evaluated on the name [constructor]: it is not a key of the keysym
    table and its first character has code 99, yet the lookup returns the
    member inherited from the object prototype and not 99. *)
Theorem getKeysym_constructor :
  keyMap !! "constructor"%string = None /\
  charCodeAt0 "constructor" = Num 99 /\
  getKeysym "constructor" = Inherited "constructor" /\
  getKeysym "constructor" <> charCodeAt0 "constructor".
Proof. repeat split; try (vm_compute; reflexivity). vm_compute. discriminate. Qed.

(** ** Coordinate validation *)



(** The spec's sample lookups. *)
Lemma keyboard_samples :
  getKeysym "a" = Num 0x0061 /\ getKeysym "Enter" = Num 0xff0d /\
  getKeysym "!" = Num 0x0021 /\ charNeedsShift "!" = true /\
  parseKeyInput "Ctrl+Alt+Delete" =
    {| modifiers := ["Ctrl"; "Alt"]%string; key := "Delete" |} /\
  parseKeyInput "a" = {| modifiers := []; key := "a" |}.
Proof. repeat split; vm_compute; reflexivity. Qed.

(** ** Key presses *)

(** A lone key is pressed, held 50 ms and released. *)
Lemma handleKeyPress_single (client : VncClient) (input : string) (k : string) :
  parseKeyInput input = {| modifiers := []; key := k |} ->
  handleKeyPress (inr client) input =
    ([sendKeyEvent (getKeysym k) true; sleep 50; sendKeyEvent (getKeysym k) false;
      disconnect],
     inr (textResult ("Pressed key combination: " +:+ input))).
Proof.
  intros Hparse. unfold handleKeyPress, executeWithConnection.
  rewrite Hparse. reflexivity.
Qed.

Lemma handleKeyPress_parsed (client : VncClient) (input : string)
    (mods : list string) (k : string) :
  parseKeyInput input = {| modifiers := mods; key := k |} -> mods <> [] ->
  handleKeyPress (inr client) input =
    (pressRelease (map getKeysym mods) true
       ++ [sendKeyEvent (getKeysym k) true; sleep 50;
           sendKeyEvent (getKeysym k) false; sleep 10]
       ++ pressRelease (rev (map getKeysym mods)) false
       ++ [disconnect],
     inr (textResult ("Pressed key combination: " +:+ input))).
Proof.
  intros Hparse Hne. unfold handleKeyPress, executeWithConnection.
  rewrite Hparse. cbn [modifiers key].
  replace (length mods =? 0)%nat with false
    by (destruct mods; [congruence | reflexivity]).
  rewrite (forOf_emit_delay (map getKeysym mods) (fun k => sendKeyEvent k true) 10).
  rewrite (forDownFrom_emit_delay (map getKeysym mods)
             (fun k => sendKeyEvent k false) 10) by lia.
  rewrite firstn_all. unfold pressRelease.
  unfold mbind, prog_bind, mret, prog_ret, Prog.bind, Prog.ret, finally,
    Prog.delay, emit, textResult.
  rewrite app_nil_r, <- !app_assoc. reflexivity.
Qed.

(** C5: for a combination M1+...+Mn+K with n >= 1, key_press presses the
    modifier keysyms in the listed order with a 10 ms pause after each,
    presses the main keysym, holds it 50 ms, releases it, pauses 10 ms and
    releases the modifiers in reverse order with a 10 ms pause after each;
    Shift+F10 gives press Shift, press F10, release F10, release Shift.
    The first part speaks of any input through its parse, the second of
    names joined with the separator. *)
Theorem handleKeyPress_combination (client : VncClient) :
  (forall (input : string) (mods : list string) (k : string),
     parseKeyInput input = {| modifiers := mods; key := k |} -> mods <> [] ->
     handleKeyPress (inr client) input =
       (flat_map (fun m => [sendKeyEvent (getKeysym m) true; sleep 10]) mods
          ++ [sendKeyEvent (getKeysym k) true; sleep 50;
              sendKeyEvent (getKeysym k) false; sleep 10]
          ++ flat_map (fun m => [sendKeyEvent (getKeysym m) false; sleep 10]) (rev mods)
          ++ [disconnect],
        inr (textResult ("Pressed key combination: " +:+ input)))) /\
  (forall (mods : list string) (k : string),
     mods <> [] -> Forall (fun p => plusFree p = true) mods -> plusFree k = true ->
     let input := join "+" (mods ++ [k]) in
     let keysymOf name := getKeysym (trim name) in
     handleKeyPress (inr client) input =
       (flat_map (fun m => [sendKeyEvent (keysymOf m) true; sleep 10]) mods
          ++ [sendKeyEvent (keysymOf k) true; sleep 50;
              sendKeyEvent (keysymOf k) false; sleep 10]
          ++ flat_map (fun m => [sendKeyEvent (keysymOf m) false; sleep 10]) (rev mods)
          ++ [disconnect],
        inr (textResult ("Pressed key combination: " +:+ input)))) /\
  handleKeyPress (inr client) "Shift+F10" =
    ([sendKeyEvent (Num 0xffe1) true; sleep 10;
      sendKeyEvent (Num 0xffc7) true; sleep 50;
      sendKeyEvent (Num 0xffc7) false; sleep 10;
      sendKeyEvent (Num 0xffe1) false; sleep 10;
      disconnect],
     inr (textResult "Pressed key combination: Shift+F10")).
Proof.
  split; [|split].
  - intros input mods k Hparse Hne.
    rewrite (handleKeyPress_parsed client input mods k Hparse Hne).
    unfold pressRelease. rewrite <- map_rev, !flat_map_map. reflexivity.
  - intros mods k Hne Hmods Hk input keysymOf.
    rewrite (handleKeyPress_parsed client input (map trim mods) (trim k)).
    + unfold pressRelease.
      rewrite <- map_rev, !flat_map_map, <- map_rev, flat_map_map. reflexivity.
    + apply parseKeyInput_join; assumption.
    + destruct mods; [congruence | discriminate].
  - vm_compute. reflexivity.
Qed.

Lemma handleKeyPress_combination_witness :
  handleKeyPress (inr screen1024x768) "Ctrl+Alt+Delete" =
    ([sendKeyEvent (Num 0xffe3) true; sleep 10;
      sendKeyEvent (Num 0xffe9) true; sleep 10;
      sendKeyEvent (Num 0xffff) true; sleep 50;
      sendKeyEvent (Num 0xffff) false; sleep 10;
      sendKeyEvent (Num 0xffe9) false; sleep 10;
      sendKeyEvent (Num 0xffe3) false; sleep 10;
      disconnect],
     inr (textResult "Pressed key combination: Ctrl+Alt+Delete")).
Proof.
  destruct (handleKeyPress_combination screen1024x768) as (_ & Hgen & _).
  apply (Hgen ["Ctrl"; "Alt"]%string "Delete"%string).
  - discriminate.
  - repeat constructor.
  - reflexivity.
Defined.

(** ** Clicks *)

Lemma buttonMap_unknown (name : string) :
  name ∉ ["left"; "right"; "middle"]%string -> buttonMap !! name = None.
Proof.
  intros Hname. unfold buttonMap. simpl.
  rewrite !lookup_insert_ne; [apply lookup_empty | | |];
    intros <-; apply Hname; set_solver.
Qed.

Lemma handleClick_valid (client : VncClient) (args : ClickArgs) :
  valid (validateCoordinates client (x args) (y args)) = true ->
  let name := string_or (button args) "left" in
  let isDouble := default false (double args) in
  let mask := or_else (getProperty buttonMap name) (Num 1) in
  handleClick (inr client) args =
    (clickCalls (x args) (y args) mask isDouble ++ [disconnect],
     inr (textResult ((if isDouble then "double-clicked" else "clicked")
                        +:+ " " +:+ name +:+ " button at ("
                        +:+ string_of_Z (x args) +:+ ", "
                        +:+ string_of_Z (y args) +:+ ")"))).
Proof.
  intros Hvalid name isDouble mask.
  unfold handleClick, executeWithConnection, checkCoordinates.
  rewrite Hvalid. fold name isDouble.
  change (getProperty buttonMap "left") with (Num 1). fold mask.
  unfold clickCalls. destruct isDouble; reflexivity.
Qed.

(** C9, as the code has it: at coordinates that pass validation, a
    non-empty button name other than left, right and middle, and not a name
    inherited from the object prototype, clicks with the left mask 0x01
    and is reported under the caller's name; an empty button name is taken
    for a missing one and reported as left. *)
Theorem handleClick_unknown_button (client : VncClient) (args : ClickArgs) :
  valid (validateCoordinates client (x args) (y args)) = true ->
  let isDouble := default false (double args) in
  let summary name :=
    textResult ((if isDouble then "double-clicked" else "clicked")
                  +:+ " " +:+ name +:+ " button at ("
                  +:+ string_of_Z (x args) +:+ ", "
                  +:+ string_of_Z (y args) +:+ ")") in
  (forall name : string,
     button args = Some name -> name <> EmptyString ->
     name ∉ ["left"; "right"; "middle"]%string -> name ∉ objectPrototypeKeys ->
     handleClick (inr client) args =
       (clickCalls (x args) (y args) (Num 0x01) isDouble ++ [disconnect],
        inr (summary name))) /\
  (button args = Some EmptyString ->
     handleClick (inr client) args =
       (clickCalls (x args) (y args) (Num 0x01) isDouble ++ [disconnect],
        inr (summary "left"%string))).
Proof.
  intros Hvalid isDouble summary. split.
  - intros name Hbutton Hne Hknown Hproto.
    rewrite (handleClick_valid client args Hvalid). rewrite Hbutton.
    destruct name as [|c rest]; [congruence|]. cbn [string_or].
    unfold getProperty. rewrite (buttonMap_unknown _ Hknown).
    rewrite bool_decide_eq_false_2 by exact Hproto. reflexivity.
  - intros Hbutton.
    rewrite (handleClick_valid client args Hvalid). rewrite Hbutton.
    reflexivity.
Qed.

Lemma handleClick_unknown_button_witness :
  handleClick (inr screen1024x768)
      {| x := 10; y := 20; button := Some "primary"%string; double := None |} =
    ([sendPointerEvent 10 20 (Num 1); sleep 100; sendPointerEvent 10 20 (Num 0);
      disconnect],
     inr (textResult "clicked primary button at (10, 20)")).
Proof.
  destruct (handleClick_unknown_button screen1024x768
              {| x := 10; y := 20; button := Some "primary"%string; double := None |})
    as [Hgen _]; [reflexivity|].
  assert (Hknown : "primary"%string ∉ ["left"; "right"; "middle"]%string)
    by not_listed.
  assert (Hproto : "primary"%string ∉ objectPrototypeKeys) by not_listed.
  exact (Hgen "primary"%string eq_refl ltac:(discriminate) Hknown Hproto).
Defined.

(** C9 as stated fails on the empty button name: it is a string other than
    left, right and middle, and the result text reports left, not the
    caller's (empty) name. *)
Lemma handleClick_empty_button_reports_left :
  (EmptyString ∉ ["left"; "right"; "middle"]%string) /\
  outcome (handleClick (inr screen1024x768) emptyButtonClick) =
    inr (textResult "clicked left button at (10, 20)") /\
  outcome (handleClick (inr screen1024x768) emptyButtonClick) <>
    inr (textResult ("clicked " +:+ EmptyString +:+ " button at (10, 20)")).
Proof.
  split; [not_listed|].
  split; [reflexivity | vm_compute; discriminate].
Qed.

(** The other way the fallback is missed: an inherited name is looked up
    on the prototype, and the mask sent is that member, not 0x01. *)
Lemma handleClick_inherited_button :
  calls (handleClick (inr screen1024x768)
           {| x := 10; y := 20; button := Some "constructor"%string; double := None |}) =
    [sendPointerEvent 10 20 (Inherited "constructor"); sleep 100;
     sendPointerEvent 10 20 (Num 0); disconnect].
Proof. reflexivity. Qed.

(** ** Connection setup *)

Lemma dispatch_keeps_deadline (c : connection) (e : event) :
  e <> deadlineFires -> deadlineArmed (dispatch c e) = deadlineArmed c.
Proof.
  intros He. destruct e; simpl; try reflexivity; [|congruence].
  destruct (hasReceivedInitialFramebuffer c); reflexivity.
Qed.

(** No listener disarms the deadline: only its own firing does. *)
Lemma deadline_stays_armed (events : list event) :
  deadlineFires ∉ events -> deadlineArmed (run events) = true.
Proof.
  unfold run.
  assert (Hinit : deadlineArmed createConnection = true) by reflexivity.
  revert Hinit. generalize createConnection.
  induction events as [|e rest IH]; intros c Hc Hnot; simpl; [exact Hc|].
  apply IH.
  - rewrite dispatch_keeps_deadline; [exact Hc|].
    intros ->. apply Hnot. left.
  - intros Hin. apply Hnot. now right.
Qed.

(** A promise keeps its first settlement whatever is dispatched later. *)
Lemma promise_settles_once (c : connection) (e : event) :
  promise c <> Pending -> promise (dispatch c e) = promise c.
Proof.
  intros Hset.
  destruct e; simpl; try reflexivity.
  - destruct (hasReceivedInitialFramebuffer c); simpl; [reflexivity|].
    destruct (promise c); [congruence | reflexivity | reflexivity].
  - destruct (promise c); [congruence | reflexivity | reflexivity].
  - destruct (deadlineArmed c); simpl; [|reflexivity].
    destruct (promise c); [congruence | reflexivity | reflexivity].
Qed.

(** C3, evaluated on a handshake followed by the first frame: the promise
    is resolved and the 15000 ms timer is still armed; when it later fires
    it calls reject, which the settled promise ignores. *)
Theorem createConnection_deadline_still_armed :
  let ready :=
    run [connected; authenticated (Some 1024) (Some 768); frameUpdated] in
  let late := dispatch ready deadlineFires in
  promise ready = Resolved /\ deadlineArmed ready = true /\
  rejectCalls ready = 0%nat /\
  rejectCalls late = 1%nat /\ promise late = Resolved /\
  deadlineArmed late = false.
Proof. repeat split. Qed.

(** ** Framebuffer normalization *)

Lemma Qeq_bool_quotient (a pixelCount k : Z) :
  pixelCount <> 0 ->
  Qeq_bool (inject_Z a / inject_Z pixelCount) (inject_Z k) = (a =? k * pixelCount).
Proof.
  intros Hpc. unfold Qeq_bool, Qdiv, Qmult, Qinv, inject_Z.
  destruct pixelCount as [|p|p]; [congruence| |]; simpl;
    rewrite Pos.mul_1_l, !Z.mul_1_r.
  - reflexivity.
  - destruct (Z.eqb_spec (a * -1) (k * Z.pos p)),
             (Z.eqb_spec a (k * Z.neg p)); (reflexivity || lia).
Qed.

Lemma bytesPerPixelOf_is (buffer : Buffer) (pixelCount k : Z) :
  pixelCount <> 0 ->
  Qeq_bool (bytesPerPixelOf buffer pixelCount) (inject_Z k)
    = (len buffer =? k * pixelCount).
Proof. apply Qeq_bool_quotient. Qed.

Lemma store_length (i : nat) (v : Z) (target : Buffer) :
  length (store i v target) = length target.
Proof. apply length_insert. Qed.

Lemma forPixels_length (pixelCount : Z) (body : nat -> Buffer -> Buffer)
    (target : Buffer) :
  (forall i t, length (body i t) = length t) ->
  length (forPixels pixelCount body target) = length target.
Proof.
  intros Hbody. unfold forPixels.
  generalize (seq 0 (Z.to_nat pixelCount)). intros l. revert target.
  induction l as [|i rest IH]; intros target; simpl; [reflexivity|].
  now rewrite IH, Hbody.
Qed.

Lemma alloc_len (n : Z) : 0 <= n -> len (alloc n) = n.
Proof. intros Hn. unfold len, alloc. rewrite length_replicate. lia. Qed.

Lemma pixel_bodies_length (buffer : Buffer) (i : nat) (t : Buffer) :
  length (rgb24Pixel buffer i t) = length t /\
  length (rgb565Pixel buffer i t) = length t /\
  length (indexedPixel buffer i t) = length t.
Proof.
  unfold rgb24Pixel, rgb565Pixel, indexedPixel.
  now rewrite !store_length.
Qed.

(** Whatever branch it takes, a conversion that returns yields
    pixelCount * 4 bytes. *)
Lemma convertToRGBA_length (buffer : Buffer) (width height : Z)
    (pixelFormat : PixelFormat) (out : Buffer) :
  0 <= width * height ->
  outcome (convertToRGBA buffer width height pixelFormat) = inr out ->
  len out = width * height * 4.
Proof.
  intros Hpc. unfold convertToRGBA.
  destruct (Qeq_bool _ 3); [|destruct (Qeq_bool _ 2); [|destruct (Qeq_bool _ 1)]];
    simpl; intros Hout; try discriminate; injection Hout as <-;
    unfold len; rewrite forPixels_length
      by (intros i t; apply (pixel_bodies_length buffer i t));
    apply alloc_len; lia.
Qed.

(** With 4 bytes per pixel nothing is converted, whatever the pixel format
    says. *)
Lemma normalizeFramebuffer_rgb32 (framebuffer : Buffer) (width height : Z)
    (pixelFormat : PixelFormat) :
  width * height <> 0 -> len framebuffer = 4 * (width * height) ->
  normalizeFramebuffer framebuffer width height pixelFormat = ([], inr framebuffer).
Proof.
  intros Hpc Hlen. unfold normalizeFramebuffer, validateFramebufferSize.
  change 4%Q with (inject_Z 4). rewrite bytesPerPixelOf_is by exact Hpc.
  replace (len framebuffer =? 4 * (width * height)) with true by lia.
  simpl. replace (len framebuffer =? width * height * 4) with true by lia.
  reflexivity.
Qed.

Lemma normalizeFramebuffer_converted (framebuffer : Buffer) (width height : Z)
    (pixelFormat : PixelFormat) (k : Z) :
  0 < width * height -> In k [1; 2; 3] ->
  len framebuffer = k * (width * height) ->
  exists out,
    normalizeFramebuffer framebuffer width height pixelFormat = ([], inr out) /\
    convertToRGBA framebuffer width height pixelFormat = ([], inr out) /\
    len out = width * height * 4.
Proof.
  intros Hpc Hk Hlen.
  assert (Hne : width * height <> 0) by lia.
  assert (H4 : Qeq_bool (bytesPerPixelOf framebuffer (width * height)) 4 = false).
  { change 4%Q with (inject_Z 4). rewrite bytesPerPixelOf_is by exact Hne.
    simpl in Hk. apply Z.eqb_neq. nia. }
  assert (Hconv : exists out,
            convertToRGBA framebuffer width height pixelFormat = ([], inr out)).
  { unfold convertToRGBA.
    change 3%Q with (inject_Z 3). change 2%Q with (inject_Z 2).
    change 1%Q with (inject_Z 1). rewrite !bytesPerPixelOf_is by exact Hne.
    simpl in Hk. destruct Hk as [<- | [<- | [<- | []]]].
    - replace (len framebuffer =? 3 * (width * height)) with false by nia.
      replace (len framebuffer =? 2 * (width * height)) with false by nia.
      replace (len framebuffer =? 1 * (width * height)) with true by lia.
      eexists; reflexivity.
    - replace (len framebuffer =? 3 * (width * height)) with false by nia.
      replace (len framebuffer =? 2 * (width * height)) with true by lia.
      eexists; reflexivity.
    - replace (len framebuffer =? 3 * (width * height)) with true by lia.
      eexists; reflexivity. }
  destruct Hconv as [out Hout]. exists out.
  assert (Hlenout : len out = width * height * 4).
  { apply (convertToRGBA_length framebuffer width height pixelFormat);
      [lia | now rewrite Hout]. }
  split; [|split; [exact Hout | exact Hlenout]].
  unfold normalizeFramebuffer, validateFramebufferSize.
  rewrite H4, Hout. simpl.
  replace (len out =? width * height * 4) with true by lia. reflexivity.
Qed.





(** The RGB565 pixel 0xF800 is pure red. *)
Lemma convertToRGBA_rgb565_red :
  convertToRGBA rgb565Red 1 1 (pixelFormat screen1024x768)
    = ([], inr [255; 0; 0; 255]).
Proof. reflexivity. Qed.

(** C1, evaluated on one BGRX pixel: the buffer has 4 bytes per pixel and
    the format is not the canonical one, so a decode by shifts would swap
    the red and blue bytes and set alpha; the normalization of
    handleScreenshot returns the buffer as it came. *)
Theorem normalizeFramebuffer_bgrx_untouched :
  Qeq_bool (bytesPerPixelOf bgrxFrame (1 * 1)) 4 = true /\
  needsPixelFormatConversion bgrx = true /\
  convertBGRXToRGBA bgrxFrame 1 1 bgrx = Some [0x33; 0x22; 0x11; 0xFF] /\
  normalizeFramebuffer bgrxFrame 1 1 bgrx = ([], inr bgrxFrame).
Proof. repeat split. Qed.

(** In the unused decoder the test for 0xFF00 reads the red maximum only,
    and then moves all three shifts. *)
Lemma bgrxPixel_high_byte_by_red_only (pixelFormat : PixelFormat) (pixel32 : Z) :
  redMax pixelFormat <> 65280 ->
  bgrxPixel pixelFormat pixel32 =
    [band (sar pixel32 (redShift pixelFormat)) 0xFF;
     band (sar pixel32 (greenShift pixelFormat)) 0xFF;
     band (sar pixel32 (blueShift pixelFormat)) 0xFF; 255].
Proof.
  intros Hred. unfold bgrxPixel. now apply Z.eqb_neq in Hred as ->.
Qed.

(** ** Framebuffer capture *)

Lemma captureFramebuffer_eq (client : VncClient) (width height : Z)
    (frameEvent : option Buffer) :
  captureFramebuffer client width height frameEvent =
    ([requestFrameUpdate true 0 0 width height; awaitFrameUpdated 2000],
     inr (match frameEvent with Some b => Some b | None => fb client end)).
Proof. destruct frameEvent; reflexivity. Qed.

(** C2, on the code: the capture step first requests an update and then
    waits 2000 ms for the event; the region is the whole screen, and the
    flag it passes is true, so the request is not the non-incremental
    full-screen one. *)
Theorem captureFramebuffer_request (client : VncClient) (width height : Z)
    (frameEvent : option Buffer) :
  calls (captureFramebuffer client width height frameEvent) =
    [requestFrameUpdate true 0 0 width height; awaitFrameUpdated 2000] /\
  map frameUpdateRequestOf
      (calls (captureFramebuffer client width height frameEvent)) =
    [Some {| incremental := true; regionX := 0; regionY := 0;
             regionWidth := width; regionHeight := height |}; None] /\
  head (calls (captureFramebuffer client width height frameEvent))
    ≫= frameUpdateRequestOf <> Some (fullScreenRequest width height).
Proof.
  rewrite captureFramebuffer_eq. repeat split. discriminate.
Qed.

(** The sibling call in createConnection passes false for its "initial
    full framebuffer". *)
Lemma createConnection_initial_request (w h : Z) :
  map frameUpdateRequestOf (requests (run [authenticated (Some w) (Some h)])) =
    [Some (fullScreenRequest w h)].
Proof. reflexivity. Qed.

(** ** Image encoding *)



(** The scaled dimension in integer arithmetic: the integer square root of
    floor(dim^2 * 800000 / size). *)
Lemma scaled_isqrt (dim n : Z) :
  0 <= dim -> 0 < n ->
  scaled dim (scaleFactorOf n) = Z.sqrt (dim * dim * sizeLimit / n).
Proof.
  intros Hd Hn. unfold scaled. apply Zfloor_eq.
  set (D := dim * dim * sizeLimit).
  assert (HD : 0 <= D) by (unfold D, sizeLimit; nia).
  set (m := D / n). set (k := Z.sqrt m).
  assert (Hm : 0 <= m) by (apply Z.div_pos; lia).
  destruct (Z.sqrt_spec m Hm) as [Hk1 Hk2]. fold k in Hk1, Hk2.
  assert (Hk0 : 0 <= k) by apply Z.sqrt_nonneg.
  assert (Hdiv1 : n * m <= D) by (apply Z.mul_div_le; lia).
  assert (Hdiv2 : D < n * Z.succ m) by (apply Z.mul_succ_div_gt; lia).
  assert (Hlo : k * k * n <= D) by nia.
  assert (Hhi : D < (k + 1) * (k + 1) * n) by nia.
  apply IZR_le in Hlo. apply IZR_lt in Hhi.
  rewrite !mult_IZR in Hlo. rewrite !mult_IZR, !plus_IZR in Hhi.
  assert (HnR : (0 < IZR n)%R) by (apply IZR_lt; lia).
  assert (HdR : (0 <= IZR dim)%R) by (apply IZR_le; lia).
  assert (HkR : (0 <= IZR k)%R) by (apply IZR_le; lia).
  set (x := (IZR dim * scaleFactorOf n)%R).
  assert (Hq : (0 <= IZR sizeLimit / IZR n)%R).
  { apply Rlt_le, Rdiv_lt_0_compat; [apply IZR_lt; reflexivity | exact HnR]. }
  assert (Hx0 : (0 <= x)%R).
  { apply Rmult_le_pos; [exact HdR | apply sqrt_pos]. }
  assert (Hx2 : (x * x * IZR n = IZR D)%R).
  { unfold x, scaleFactorOf, D.
    replace (IZR dim * sqrt (IZR sizeLimit / IZR n) *
             (IZR dim * sqrt (IZR sizeLimit / IZR n)))%R
      with (IZR dim * IZR dim *
            (sqrt (IZR sizeLimit / IZR n) * sqrt (IZR sizeLimit / IZR n)))%R by ring.
    rewrite sqrt_sqrt by exact Hq. rewrite !mult_IZR. field. lra. }
  split.
  - apply Rsqr_incr_0_var; [|exact Hx0]. unfold Rsqr.
    apply (Rmult_le_reg_r (IZR n)); [exact HnR|]. rewrite Hx2. exact Hlo.
  - apply Rsqr_incrst_0; [|exact Hx0|lra]. unfold Rsqr.
    apply (Rmult_lt_reg_r (IZR n)); [exact HnR|]. rewrite Hx2. exact Hhi.
Qed.

(** A 1920x1080 frame whose first encoding takes 3200000 bytes is halved. *)
Lemma scaled_half :
  scaled 1920 (scaleFactorOf 3200000) = 960 /\
  scaled 1080 (scaleFactorOf 3200000) = 540.
Proof. rewrite !scaled_isqrt by lia. split; reflexivity. Qed.

Section EncoderProperties.
Variable sharp : SharpJob -> Buffer.
Variable base64 : Buffer -> string.

Lemma captureScreenshotWithDimensions_rgba (width height : Z)
    (framebuffer : Buffer) (delay : Z) :
  width * height <> 0 -> len framebuffer = width * height * 4 ->
  exists result,
    captureScreenshotWithDimensions sharp base64 width height framebuffer delay
      = ([], inr result).
Proof.
  intros Hpc Hlen. unfold captureScreenshotWithDimensions.
  change 4%Q with (inject_Z 4). rewrite bytesPerPixelOf_is by exact Hpc.
  replace (len framebuffer =? 4 * (width * height)) with true by lia.
  simpl. destruct (len (sharp _) >? sizeLimit); eexists; reflexivity.
Qed.


End EncoderProperties.


(** ** Screenshot: timeout and fallback *)

Section ScreenshotProperties.
Variable sharp : SharpJob -> Buffer.
Variable base64 : Buffer -> string.

Let shoot := handleScreenshot sharp base64.

(** What the callback of handleScreenshot does once the dimensions are
    known to be non-zero. *)
Lemma handleScreenshot_connected (client : VncClient) (frameEvent : option Buffer)
    (args : ScreenshotArgs) :
  or_zero (delay args) <= 300000 ->
  or_zero (clientWidth client) <> 0 -> or_zero (clientHeight client) <> 0 ->
  let width := or_zero (clientWidth client) in
  let height := or_zero (clientHeight client) in
  let waited :=
    (if or_zero (delay args) >? 0 then [sleep (or_zero (delay args))] else [])
      ++ [requestFrameUpdate true 0 0 width height; awaitFrameUpdated 2000] in
  shoot (inr client) frameEvent args =
    match (match frameEvent with Some b => Some b | None => fb client end) with
    | None => (waited ++ [disconnect], inl NoFramebuffer)
    | Some framebuffer =>
        let '(t, r) :=
          framebuffer ←
            normalizeFramebuffer framebuffer width height (pixelFormat client) ;
          captureScreenshotWithDimensions sharp base64 width height framebuffer
            (or_zero (delay args)) in
        (waited ++ t ++ [disconnect], r)
    end.
Proof.
  intros Hdelay Hw Hh width height waited.
  unfold shoot, handleScreenshot, executeWithConnection.
  fold width height. rewrite captureFramebuffer_eq.
  apply Z.eqb_neq in Hw. apply Z.eqb_neq in Hh. fold width in Hw. fold height in Hh.
  rewrite Hw, Hh. subst waited.
  replace (or_zero (delay args) >? 300000) with false by lia.
  destruct (or_zero (delay args) >? 0);
    (destruct (match frameEvent with Some b => Some b | None => fb client end)
       as [framebuffer|]; [|reflexivity]);
    simpl;
    destruct (normalizeFramebuffer framebuffer width height (pixelFormat client))
      as [t [e | converted]]; simpl; try reflexivity;
    destruct (captureScreenshotWithDimensions sharp base64 width height converted
                (or_zero (delay args))) as [t' r]; simpl;
    rewrite <- ?app_assoc; reflexivity.
Qed.


Lemma handleScreenshot_delay_too_large (connection : string + VncClient)
    (frameEvent : option Buffer) (args : ScreenshotArgs) :
  300000 < or_zero (delay args) ->
  shoot connection frameEvent args = ([], inl DelayTooLarge).
Proof.
  intros Hdelay. unfold shoot, handleScreenshot.
  replace (or_zero (delay args) >? 0) with true by lia.
  replace (or_zero (delay args) >? 300000) with true by lia.
  reflexivity.
Qed.

Lemma handleScreenshot_not_connected (message : string)
    (frameEvent : option Buffer) (args : ScreenshotArgs) :
  or_zero (delay args) <= 300000 ->
  outcome (shoot (inl message) frameEvent args) = inl (ConnectionError message).
Proof.
  intros Hdelay. unfold shoot, handleScreenshot.
  replace (or_zero (delay args) >? 300000) with false by lia.
  destruct (or_zero (delay args) >? 0); reflexivity.
Qed.

Lemma handleScreenshot_no_dimensions (client : VncClient)
    (frameEvent : option Buffer) (args : ScreenshotArgs) :
  or_zero (delay args) <= 300000 ->
  or_zero (clientWidth client) = 0 \/ or_zero (clientHeight client) = 0 ->
  outcome (shoot (inr client) frameEvent args) =
    inl (InvalidScreenDimensions (or_zero (clientWidth client))
                                 (or_zero (clientHeight client))).
Proof.
  intros Hdelay Hdims. unfold shoot, handleScreenshot, executeWithConnection.
  replace (or_zero (delay args) >? 300000) with false by lia.
  replace ((or_zero (clientWidth client) =? 0) || (or_zero (clientHeight client) =? 0))
    with true
    by (symmetry; apply orb_true_iff; destruct Hdims as [-> | ->]; auto).
  destruct (or_zero (delay args) >? 0); reflexivity.
Qed.


End ScreenshotProperties.


(* ===================================================================== *)
(** * Further properties of the modelled code                              *)
(* ===================================================================== *)

(** ** Key input parsing *)

Lemma split_length (s : string) :
  length (split "+" s) = S (occurrences "+" s).
Proof.
  induction s as [|c rest IH]; [reflexivity|]. simpl.
  destruct (Ascii.eqb c "+"); simpl; [now rewrite IH|].
  destruct (split "+" rest) eqn:E; simpl in *; [discriminate | exact IH].
Qed.

Lemma split_parts_plusFree (s : string) :
  Forall (fun p => plusFree p = true) (split "+" s).
Proof.
  induction s as [|c rest IH]; simpl; [repeat constructor|].
  destruct (Ascii.eqb c "+") eqn:E; [constructor; [reflexivity | exact IH]|].
  destruct (split "+" rest) as [|p ps]; [repeat constructor; simpl; now rewrite E|].
  inversion IH as [|? ? Hp Hps]; subst.
  constructor; [simpl; now rewrite E, Hp | exact Hps].
Qed.

Lemma trimStart_plusFree (s : string) :
  plusFree s = true -> plusFree (trimStart s) = true.
Proof.
  induction s as [|c rest IH]; simpl; [reflexivity|].
  intros H. destruct (isWhiteSpace c); [|exact H].
  apply IH. now apply andb_true_iff in H as [_ H].
Qed.

Lemma trimEnd_plusFree (s : string) :
  plusFree s = true -> plusFree (trimEnd s) = true.
Proof.
  induction s as [|c rest IH]; simpl; [reflexivity|].
  intros [Hc Hrest]%andb_true_iff. specialize (IH Hrest).
  destruct (trimEnd rest) as [|d rest'].
  - destruct (isWhiteSpace c); simpl; [reflexivity | now rewrite Hc].
  - simpl in *. now rewrite Hc, IH.
Qed.

Lemma trim_plusFree (s : string) : plusFree s = true -> plusFree (trim s) = true.
Proof. intros H. apply trimEnd_plusFree, trimStart_plusFree, H. Qed.

Lemma trimStart_headClean (s : string) : headClean (trimStart s) = true.
Proof.
  induction s as [|c rest IH]; simpl; [reflexivity|].
  destruct (isWhiteSpace c) eqn:E; [exact IH | simpl; now rewrite E].
Qed.

Lemma trimStart_id (s : string) : headClean s = true -> trimStart s = s.
Proof.
  destruct s as [|c rest]; simpl; [reflexivity|].
  intros H. now apply negb_true_iff in H as ->.
Qed.

Lemma trimEnd_headClean (s : string) :
  headClean s = true -> headClean (trimEnd s) = true.
Proof.
  destruct s as [|c rest]; simpl; [reflexivity|].
  intros H. apply negb_true_iff in H.
  destruct (trimEnd rest); rewrite ?H; simpl; rewrite H; reflexivity.
Qed.

Lemma trimEnd_idempotent (s : string) : trimEnd (trimEnd s) = trimEnd s.
Proof.
  induction s as [|c rest IH]; simpl; [reflexivity|].
  destruct (trimEnd rest) as [|d rest'] eqn:E.
  - destruct (isWhiteSpace c) eqn:Ec; simpl; [reflexivity | now rewrite Ec].
  - change (trimEnd (String c (String d rest'))
            = String c (String d rest')).
    simpl trimEnd at 1. simpl in IH. rewrite IH. reflexivity.
Qed.

Lemma trim_idempotent (s : string) : trim (trim s) = trim s.
Proof.
  unfold trim.
  rewrite (trimStart_id (trimEnd (trimStart s)))
    by apply trimEnd_headClean, trimStart_headClean.
  apply trimEnd_idempotent.
Qed.

Lemma removelast_nth_last {A} (l : list A) (d : A) :
  l <> [] -> removelast l ++ [List.nth (length l - 1) l d] = l.
Proof.
  induction l as [|a rest IH]; [congruence|]. intros _.
  destruct rest as [|b rest'] eqn:E; [reflexivity|]. rewrite <- E in *.
  assert (Hne : rest <> []) by (subst rest; discriminate).
  replace (length (a :: rest) - 1)%nat with (S (length rest - 1))
    by (subst rest; simpl; lia).
  replace (removelast (a :: rest)) with (a :: removelast rest)
    by (subst rest; reflexivity).
  simpl. now rewrite (IH Hne).
Qed.

Lemma parseKeyInput_names (input : string) :
  modifiers (parseKeyInput input) ++ [key (parseKeyInput input)]
    = map trim (split "+" input).
Proof.
  unfold parseKeyInput.
  set (parts := map trim (split "+" input)).
  assert (Hne : parts <> []).
  { unfold parts. pose proof (split_nonempty "+" input).
    destruct (split "+" input); [congruence | discriminate]. }
  destruct (Nat.eqb_spec (length parts) 1) as [H1 | H1]; simpl.
  - destruct parts as [|p [|q rest]]; simpl in *; congruence.
  - apply removelast_nth_last, Hne.
Qed.

(** X1: parsing keeps every part of the input: the modifiers followed by
    the key are the trimmed pieces between the separators, so there are as
    many modifiers as separators; each name is free of the separator and
    of surrounding white space (trimming it again changes nothing). *)
Theorem parseKeyInput_keeps_parts (input : string) :
  modifiers (parseKeyInput input) ++ [key (parseKeyInput input)]
    = map trim (split "+" input) /\
  length (modifiers (parseKeyInput input)) = occurrences "+" input /\
  Forall (fun name => plusFree name = true /\ trim name = name)
         (modifiers (parseKeyInput input) ++ [key (parseKeyInput input)]).
Proof.
  pose proof (parseKeyInput_names input) as Hnames.
  split; [exact Hnames|]. split.
  - apply (f_equal (@length string)) in Hnames.
    rewrite length_app, length_map, split_length in Hnames. simpl in Hnames. lia.
  - rewrite Hnames. apply Forall_map.
    eapply Forall_impl; [apply split_parts_plusFree|].
    intros p Hp. simpl. split; [apply trim_plusFree, Hp | apply trim_idempotent].
Qed.

(** ** Keysym and shift tables *)

Lemma keyMapEntries_checked :
  forallb (fun entry => bool_decide (getKeysym (fst entry) = Num (snd entry))
                        && negb (snd entry =? 0))
          keyMapEntries = true.
Proof. vm_compute. reflexivity. Qed.

Lemma keyMap_lookup_listed (name : string) (code : Z) :
  keyMap !! name = Some code -> (name, code) ∈ keyMapEntries.
Proof. apply elem_of_list_to_map_2. Qed.

(** X2: every name listed in the keysym table is looked up to the code
    listed with it, and only listed names are found in the table: no
    entry is shadowed by a duplicate or lost to a zero code. *)
Theorem getKeysym_table (name : string) (code : Z) :
  ((name, code) ∈ keyMapEntries -> getKeysym name = Num code /\ code <> 0) /\
  (keyMap !! name = Some code -> (name, code) ∈ keyMapEntries).
Proof.
  split; [|apply keyMap_lookup_listed].
  intros Hin. apply list_elem_of_In in Hin.
  pose proof keyMapEntries_checked as Hall.
  rewrite forallb_forall in Hall. specialize (Hall _ Hin). cbn [fst snd] in Hall.
  apply andb_true_iff in Hall as [Hget Hnz].
  apply bool_decide_eq_true_1 in Hget. apply negb_true_iff, Z.eqb_neq in Hnz.
  auto.
Qed.

Lemma getKeysym_table_witness : getKeysym "Page Down" = Num 0xff56 /\ 0xff56 <> 0.
Proof.
  destruct (getKeysym_table "Page Down" 0xff56) as [Hlisted _].
  apply Hlisted. apply (bool_decide_eq_true_1 _). vm_compute. reflexivity.
Defined.

Lemma getKeysym_character_code (c : ascii) :
  getKeysym (String c EmptyString) = Num (Z.of_nat (nat_of_ascii c)).
Proof.
  destruct c as [[] [] [] [] [] [] [] []]; vm_compute; reflexivity.
Qed.

(** X3: the keysym of a one-character name is the code of the character,
    whether the character is in the table or falls back to its code. *)
Theorem getKeysym_one_character (c : ascii) :
  getKeysym (String c EmptyString) = Num (Z.of_nat (nat_of_ascii c)).
Proof.
  exact (getKeysym_character_code c).
Qed.

Lemma plusFree_head (c : ascii) (rest : string) :
  plusFree (String c rest) = true -> Z.of_nat (nat_of_ascii c) <> 0x2b.
Proof.
  simpl. intros [Hc _]%andb_true_iff. apply negb_true_iff in Hc.
  intros Hcode. apply Ascii.eqb_neq in Hc. apply Hc.
  rewrite <- (ascii_nat_embedding c).
  replace (nat_of_ascii c) with 43%nat by lia. reflexivity.
Qed.

Lemma keyMapEntries_plus :
  forallb (fun entry => negb (snd entry =? 0x2b) || negb (plusFree (fst entry)))
          keyMapEntries = true.
Proof. vm_compute. reflexivity. Qed.

Lemma getKeysym_no_plus (name : string) :
  plusFree name = true -> getKeysym name <> Num 0x2b.
Proof.
  intros Hfree. unfold getKeysym, getProperty.
  assert (Hfallback : charCodeAt0 name <> Num 0x2b).
  { destruct name as [|c rest]; simpl; [discriminate|].
    intros [= Hcode]. now apply (plusFree_head c rest Hfree). }
  destruct (keyMap !! name) as [code|] eqn:Hmap.
  - unfold or_else. simpl. destruct (code =? 0) eqn:Hz; simpl; [exact Hfallback|].
    intros [= ->].
    apply keyMap_lookup_listed, list_elem_of_In in Hmap.
    pose proof keyMapEntries_plus as Hall.
    rewrite forallb_forall in Hall. specialize (Hall _ Hmap).
    cbn [fst snd] in Hall. rewrite Hfree in Hall. discriminate.
  - destruct (bool_decide _); unfold or_else; simpl; [discriminate | exact Hfallback].
Qed.

Lemma parsed_names_plusFree (input : string) :
  Forall (fun name => plusFree name = true)
         (modifiers (parseKeyInput input) ++ [key (parseKeyInput input)]).
Proof.
  rewrite parseKeyInput_names. apply Forall_map.
  eapply Forall_impl; [apply split_parts_plusFree|].
  intros p Hp. apply trim_plusFree, Hp.
Qed.

Lemma elem_of_pressRelease (c : call) (keysyms : list value) (down : bool) :
  c ∈ pressRelease keysyms down ->
  c = sleep 10 \/ exists k, k ∈ keysyms /\ c = sendKeyEvent k down.
Proof.
  unfold pressRelease. induction keysyms as [|k rest IH]; simpl.
  - intros H. inversion H.
  - rewrite !elem_of_cons. intros [-> | [-> | Hin]].
    + right. exists k. split; [left | reflexivity].
    + now left.
    + destruct (IH Hin) as [-> | (k' & Hk' & ->)]; [now left|].
      right. exists k'. split; [now right | reflexivity].
Qed.

Lemma key_event_differs (v : value) (d down : bool) :
  v <> Num 0x2b -> sendKeyEvent (Num 0x2b) down <> sendKeyEvent v d.
Proof. intros Hv H. apply Hv. now inversion H. Qed.

Lemma main_key_calls_no_plus (v : value) (down : bool) (tail : list call) :
  v <> Num 0x2b -> sendKeyEvent (Num 0x2b) down ∉ tail ->
  sendKeyEvent (Num 0x2b) down ∉
    sendKeyEvent v true :: sleep 50 :: sendKeyEvent v false :: tail.
Proof.
  intros Hv Htail. rewrite !not_elem_of_cons.
  repeat split; try exact Htail; try (apply key_event_differs, Hv).
  discriminate.
Qed.

Lemma pressRelease_no_plus (keysyms : list value) (d down : bool) :
  (forall v, v ∈ keysyms -> v <> Num 0x2b) ->
  sendKeyEvent (Num 0x2b) down ∉ pressRelease keysyms d.
Proof.
  intros Hall Hin.
  apply elem_of_pressRelease in Hin as [H | (v & Hv & H)]; [discriminate|].
  revert H. apply key_event_differs, Hall, Hv.
Qed.

(** X4: key_press never sends the keysym of the plus sign (0x2b), although
    the table lists it: the separator cannot be part of a parsed name. *)
Theorem handleKeyPress_never_plus (client : VncClient) (input : string)
    (down : bool) :
  sendKeyEvent (Num 0x2b) down ∉ calls (handleKeyPress (inr client) input).
Proof.
  pose proof (parsed_names_plusFree input) as Hfree.
  destruct (parseKeyInput input) as [mods k] eqn:Hparse.
  cbn [modifiers key] in Hfree.
  apply Forall_app in Hfree as [Hmods Hk].
  inversion Hk as [|? ? Hkfree _]; subst.
  pose proof (getKeysym_no_plus k Hkfree) as Hmain.
  assert (Hmodsyms : forall v, v ∈ map getKeysym mods -> v <> Num 0x2b).
  { intros v (m & -> & Hm)%list_elem_of_fmap.
    apply getKeysym_no_plus. rewrite Forall_forall in Hmods. now apply Hmods. }
  assert (Hend : sendKeyEvent (Num 0x2b) down ∉ [disconnect]).
  { rewrite list_elem_of_singleton. discriminate. }
  destruct mods as [|m mods'].
  - rewrite (handleKeyPress_single client input k Hparse). cbn [calls fst].
    apply main_key_calls_no_plus; assumption.
  - rewrite (handleKeyPress_parsed client input (m :: mods') k Hparse)
      by discriminate.
    cbn [calls fst]. rewrite !not_elem_of_app. split; [|split].
    + apply pressRelease_no_plus, Hmodsyms.
    + apply main_key_calls_no_plus; [exact Hmain|].
      rewrite list_elem_of_singleton. discriminate.
    + split; [|exact Hend].
      apply pressRelease_no_plus. intros v Hv. apply Hmodsyms.
      apply list_elem_of_In, in_rev, list_elem_of_In. exact Hv.
Qed.

Lemma shift_tables_checked :
  forallb (fun n =>
             let c := ascii_of_nat n in
             let char := String c EmptyString in
             if charNeedsShift char then
               match getUnshiftedChar char with
               | Name (String b EmptyString) =>
                   negb (charNeedsShift (String b EmptyString))
                   && bool_decide (shiftedOf b = c)
                   && bool_decide (getKeysym (String b EmptyString)
                                   = Num (Z.of_nat (nat_of_ascii b)))
               | _ => false
               end
             else bool_decide (getUnshiftedChar char = Name char)
                  && bool_decide (shiftMap !! char = None))
          (seq 0 256) = true.
Proof. vm_compute. reflexivity. Qed.

Lemma ascii_listed (c : ascii) : In (nat_of_ascii c) (seq 0 256).
Proof. apply in_seq. pose proof (nat_ascii_bounded c). lia. Qed.

Lemma shift_tables_cases (c : ascii) :
  let char := String c EmptyString in
  (charNeedsShift char = true ->
     exists b, getUnshiftedChar char = Name (String b EmptyString) /\
               charNeedsShift (String b EmptyString) = false /\
               shiftedOf b = c) /\
  (charNeedsShift char = false ->
     getUnshiftedChar char = Name char /\ shiftMap !! char = None).
Proof.
  intros char.
  pose proof shift_tables_checked as Hall.
  rewrite forallb_forall in Hall. specialize (Hall _ (ascii_listed c)).
  cbv zeta in Hall. rewrite ascii_nat_embedding in Hall. fold char in Hall.
  split; intros Hneeds; rewrite Hneeds in Hall.
  - destruct (getUnshiftedChar char) as [[|b [|]]|]; try discriminate.
    apply andb_true_iff in Hall as [[Hb Hback]%andb_true_iff _].
    exists b. repeat split.
    + now apply negb_true_iff in Hb.
    + now apply bool_decide_eq_true_1 in Hback.
  - apply andb_true_iff in Hall as [H1 H2].
    split; [now apply bool_decide_eq_true_1 in H1
           | now apply bool_decide_eq_true_1 in H2].
Qed.

(** X5: the shift test and the shift map agree on every character.  A
    character that needs Shift has a base key in the map; that base key
    needs no Shift itself and leads back to the character, so two shifted
    characters never share a base key.  A character that needs no Shift is
    not in the map and is its own key. *)
Theorem shift_tables_agree (c : ascii) :
  let char := String c EmptyString in
  (charNeedsShift char = true ->
     exists b, getUnshiftedChar char = Name (String b EmptyString) /\
               charNeedsShift (String b EmptyString) = false /\
               shiftedOf b = c) /\
  (charNeedsShift char = false ->
     getUnshiftedChar char = Name char /\ shiftMap !! char = None).
Proof.
  exact (shift_tables_cases c).
Qed.

Lemma shift_tables_agree_witness :
  exists b, getUnshiftedChar "!" = Name (String b EmptyString) /\
            charNeedsShift (String b EmptyString) = false /\
            shiftedOf b = "!"%char.
Proof.
  destruct (shift_tables_agree "!"%char) as [Hshifted _].
  apply Hshifted. reflexivity.
Defined.

(** ** Typing *)

Lemma forOf_calls {A} (l : list A) (body : A -> prog unit) (t : A -> list call) :
  (forall a, body a = (t a, inr tt)) ->
  forOf l body = (flat_map t l, inr tt).
Proof.
  intros Hbody. induction l as [|a rest IH]; [reflexivity|].
  simpl forOf. rewrite Hbody, IH. reflexivity.
Qed.

Lemma shift_keysym : getKeysym "Shift" = Num shiftKeysym.
Proof. vm_compute. reflexivity. Qed.

Lemma return_keysym : getKeysym "Return" = Num returnKeysym.
Proof. vm_compute. reflexivity. Qed.

Lemma typeCharacter_calls (char : string) (hold gap : Z) :
  typeCharacter char hold gap = (characterCalls char hold gap, inr tt).
Proof.
  unfold typeCharacter, characterCalls. rewrite shift_keysym.
  generalize (typingKeysym char). intros keysym.
  destruct (charNeedsShift char); reflexivity.
Qed.

Lemma typeString_calls (text : string) :
  typeString text =
    (flat_map (fun char => characterCalls char (holdOf text) (gapOf text))
              (characters text), inr tt).
Proof.
  unfold typeString. fold (slowTyping text). fold (holdOf text) (gapOf text).
  apply forOf_calls. intros char. apply typeCharacter_calls.
Qed.

Lemma pressEnter_calls :
  pressEnter = ([sendKeyEvent (Num returnKeysym) true; sleep 50;
                 sendKeyEvent (Num returnKeysym) false], inr tt).
Proof. unfold pressEnter. rewrite return_keysym. reflexivity. Qed.

(** A string that needs Shift is never looked up on the prototype. *)
Lemma unshifted_is_a_name (char : string) :
  charNeedsShift char = true -> exists s, getUnshiftedChar char = Name s.
Proof.
  intros Hneeds. unfold getUnshiftedChar.
  destruct (shiftMap !! char) as [[|c rest]|]; [eauto | eauto |].
  destruct (bool_decide (char ∈ objectPrototypeKeys)) eqn:E; [|eauto].
  apply bool_decide_eq_true_1 in E. exfalso.
  unfold objectPrototypeKeys in E.
  repeat (apply elem_of_cons in E as [-> | E]; [vm_compute in Hneeds; discriminate|]).
  inversion E.
Qed.



Lemma heldAfter_app (held : list value) (a b : list call) :
  heldAfter held (a ++ b) = heldAfter held a ≫= fun held' => heldAfter held' b.
Proof.
  revert held. induction a as [|c rest IH]; intros held; [reflexivity|].
  destruct c as [| k [|] | | | |]; simpl; try apply IH.
  destruct held as [|top below]; [reflexivity|].
  destruct (bool_decide (top = k)); [apply IH | reflexivity].
Qed.



Lemma heldAfter_presses (held : list value) (keysyms : list value) :
  heldAfter held (pressRelease keysyms true) = Some (rev keysyms ++ held).
Proof.
  revert held. induction keysyms as [|k rest IH]; intros held; [reflexivity|].
  simpl. rewrite IH, <- app_assoc. reflexivity.
Qed.

Lemma heldAfter_releases (held : list value) (keysyms : list value) :
  heldAfter (keysyms ++ held) (pressRelease keysyms false) = Some held.
Proof.
  induction keysyms as [|k rest IH]; [reflexivity|].
  simpl. rewrite bool_decide_eq_true_2 by reflexivity. exact IH.
Qed.

(** X6: key_press leaves no key down.  Along its calls every release is
    the release of the key pressed last among those still held, and at the
    end nothing is held, for a single key and for any combination. *)
Theorem handleKeyPress_releases_all (client : VncClient) (input : string) :
  heldAfter [] (calls (handleKeyPress (inr client) input)) = Some [].
Proof.
  destruct (parseKeyInput input) as [mods k] eqn:Hparse.
  destruct mods as [|m mods'].
  - rewrite (handleKeyPress_single client input k Hparse). cbn [calls fst].
    generalize (getKeysym k). intros main. simpl.
    now rewrite bool_decide_eq_true_2.
  - rewrite (handleKeyPress_parsed client input (m :: mods') k Hparse)
      by discriminate.
    cbn [calls fst].
    generalize (getKeysym k) (map getKeysym (m :: mods')). intros main keysyms.
    rewrite heldAfter_app, heldAfter_presses. cbn [mbind option_bind].
    rewrite app_nil_r. simpl.
    rewrite bool_decide_eq_true_2 by reflexivity.
    rewrite heldAfter_app.
    rewrite <- (app_nil_r (rev keysyms)) at 1.
    rewrite heldAfter_releases. reflexivity.
Qed.

Lemma handleTypeText_calls (client : VncClient) (text : string)
    (enter : option bool) :
  handleTypeText (inr client) text enter =
    (typedCalls text ++ (if default false enter then enterCalls else [])
       ++ [disconnect],
     inr (textResult ("Typed text: " +:+ text
                        +:+ (if default false enter then " + Enter" else "")))).
Proof.
  unfold handleTypeText, executeWithConnection.
  rewrite typeString_calls. fold (typedCalls text).
  destruct (default false enter).
  - rewrite pressEnter_calls. fold enterCalls.
    unfold mbind, prog_bind, Prog.bind, Prog.ret, finally, textResult.
    rewrite app_nil_r, <- app_assoc. reflexivity.
  - unfold mbind, prog_bind, mret, prog_ret, Prog.bind, Prog.ret, finally,
      textResult.
    rewrite !app_nil_r. reflexivity.
Qed.

Lemma handleTypeMultiline_calls (client : VncClient) (lines : list string) :
  handleTypeMultiline (inr client) lines =
    (flat_map lineCalls lines ++ [disconnect],
     inr (textResult ("Typed " +:+ string_of_Z (Z.of_nat (length lines))
                        +:+ " lines: " +:+ join " | " lines))).
Proof.
  unfold handleTypeMultiline, executeWithConnection.
  rewrite (forOf_calls lines _ lineCalls).
  - unfold mbind, prog_bind, Prog.bind, Prog.ret, finally, textResult.
    rewrite app_nil_r. reflexivity.
  - intros line. rewrite typeString_calls, pressEnter_calls.
    fold (typedCalls line) enterCalls. unfold lineCalls.
    unfold mbind, prog_bind, Prog.bind, Prog.delay, emit. reflexivity.
Qed.



















(** ** Pointer events *)


Lemma handleClick_rejected (client : VncClient) (args : ClickArgs) :
  valid (validateCoordinates client (x args) (y args)) = false ->
  handleClick (inr client) args =
    ([disconnect],
     inl (CoordinateOutOfBounds
            (default EmptyString
               (error (validateCoordinates client (x args) (y args)))))).
Proof.
  intros Hvalid. unfold handleClick, executeWithConnection, checkCoordinates.
  rewrite Hvalid. reflexivity.
Qed.

Lemma handleMoveMouse_cases (client : VncClient) (x y : Z) :
  handleMoveMouse (inr client) x y =
    if valid (validateCoordinates client x y) then
      ([sendPointerEvent x y (Num 0); disconnect],
       inr (textResult ("Moved mouse to (" +:+ string_of_Z x +:+ ", "
                          +:+ string_of_Z y +:+ ")")))
    else
      ([disconnect],
       inl (CoordinateOutOfBounds
              (default EmptyString (error (validateCoordinates client x y))))).
Proof.
  unfold handleMoveMouse, executeWithConnection, checkCoordinates.
  destruct (valid (validateCoordinates client x y)); reflexivity.
Qed.

Lemma pointerEvents_app (a b : list call) :
  pointerEvents (a ++ b) = pointerEvents a ++ pointerEvents b.
Proof.
  induction a as [|c rest IH]; [reflexivity|].
  destruct c; simpl; rewrite IH; reflexivity.
Qed.

Lemma pointerEvents_click (x y : Z) (mask : value) (isDouble : bool) :
  pointerEvents (clickCalls x y mask isDouble ++ [disconnect]) =
    if isDouble then [(x, y, mask); (x, y, Num 0); (x, y, mask); (x, y, Num 0)]
    else [(x, y, mask); (x, y, Num 0)].
Proof. destruct isDouble; reflexivity. Qed.



(** X12: a click presses a button and lets it go.  At a valid point the
    pointer events are press, release (twice for a double click), all with
    one and the same non-zero mask and the releases with mask 0; the mask
    is 0x01 for left or no button, 0x04 for right and 0x02 for middle. *)
Theorem handleClick_press_release (client : VncClient) (args : ClickArgs) :
  valid (validateCoordinates client (x args) (y args)) = true ->
  exists mask,
    truthy mask = true /\
    pointerEvents (calls (handleClick (inr client) args)) =
      (if default false (double args)
       then [(x args, y args, mask); (x args, y args, Num 0);
             (x args, y args, mask); (x args, y args, Num 0)]
       else [(x args, y args, mask); (x args, y args, Num 0)]) /\
    (button args = None \/ button args = Some "left"%string -> mask = Num 0x01) /\
    (button args = Some "right"%string -> mask = Num 0x04) /\
    (button args = Some "middle"%string -> mask = Num 0x02).
Proof.
  intros Hvalid.
  exists (or_else (getProperty buttonMap (string_or (button args) "left")) (Num 1)).
  split; [|split; [|split; [|split]]].
  - unfold or_else. destruct (truthy (getProperty _ _)) eqn:E; [exact E | reflexivity].
  - rewrite (handleClick_valid client args Hvalid). cbn [calls fst].
    apply pointerEvents_click.
  - intros [-> | ->]; reflexivity.
  - intros ->. reflexivity.
  - intros ->. reflexivity.
Qed.

Lemma handleClick_press_release_witness :
  exists mask,
    truthy mask = true /\
    pointerEvents (calls (handleClick (inr screen1024x768)
                            {| x := 5; y := 6; button := Some "right"%string;
                               double := Some true |})) =
      [(5, 6, mask); (5, 6, Num 0); (5, 6, mask); (5, 6, Num 0)] /\
    mask = Num 0x04.
Proof.
  destruct (handleClick_press_release screen1024x768
              {| x := 5; y := 6; button := Some "right"%string;
                 double := Some true |} eq_refl)
    as (mask & Htruthy & Hevents & _ & Hright & _).
  exists mask. repeat split; [exact Htruthy | exact Hevents | apply Hright; reflexivity].
Defined.

(** ** Session teardown *)

Lemma disconnects_app (a b : list call) :
  disconnects (a ++ b) = (disconnects a + disconnects b)%nat.
Proof.
  induction a as [|c rest IH]; [reflexivity|].
  destruct c; simpl; rewrite IH; reflexivity.
Qed.

Lemma disconnects_characterCalls (char : string) (hold gap : Z) :
  disconnects (characterCalls char hold gap) = 0%nat.
Proof.
  unfold characterCalls. generalize (typingKeysym char). intros keysym.
  destruct (charNeedsShift char); reflexivity.
Qed.

Lemma disconnects_typedCalls (text : string) : disconnects (typedCalls text) = 0%nat.
Proof.
  unfold typedCalls. generalize (holdOf text) (gapOf text). intros hold gap.
  induction (characters text) as [|char rest IH]; [reflexivity|].
  cbn [flat_map]. now rewrite disconnects_app, disconnects_characterCalls, IH.
Qed.

Lemma disconnects_lines (lines : list string) :
  disconnects (flat_map lineCalls lines) = 0%nat.
Proof.
  induction lines as [|line rest IH]; [reflexivity|].
  cbn [flat_map]. unfold lineCalls at 1.
  now rewrite !disconnects_app, disconnects_typedCalls, IH.
Qed.

Lemma disconnects_pressRelease (keysyms : list value) (down : bool) :
  disconnects (pressRelease keysyms down) = 0%nat.
Proof. induction keysyms as [|k rest IH]; [reflexivity | exact IH]. Qed.

Lemma last_snoc {A} (l : list A) (a : A) : List.last (l ++ [a]) a = a.
Proof. apply last_last. Qed.

(** X13: every input operation on a connected session closes it exactly
    once, with its last call, whether it succeeds or is rejected; when the
    connection could not be made the operation makes no call and fails
    with the connection error. *)
Theorem input_handlers_disconnect_once (client : VncClient) :
  let once (cs : list call) :=
    disconnects cs = 1%nat /\ List.last cs disconnect = disconnect /\ cs <> [] in
  (forall args, once (calls (handleClick (inr client) args))) /\
  (forall x y, once (calls (handleMoveMouse (inr client) x y))) /\
  (forall input, once (calls (handleKeyPress (inr client) input))) /\
  (forall text enter, once (calls (handleTypeText (inr client) text enter))) /\
  (forall lines, once (calls (handleTypeMultiline (inr client) lines))) /\
  (forall message args input text enter lines x y,
     handleClick (inl message) args = ([], inl (ConnectionError message)) /\
     handleMoveMouse (inl message) x y = ([], inl (ConnectionError message)) /\
     handleKeyPress (inl message) input = ([], inl (ConnectionError message)) /\
     handleTypeText (inl message) text enter = ([], inl (ConnectionError message)) /\
     handleTypeMultiline (inl message) lines = ([], inl (ConnectionError message))).
Proof.
  intros once.
  assert (Hsnoc : forall t, disconnects t = 0%nat -> once (t ++ [disconnect])).
  { intros t Ht. unfold once. rewrite disconnects_app, Ht, last_snoc.
    repeat split. destruct t; discriminate. }
  split; [|split; [|split; [|split; [|split]]]].
  - intros args.
    destruct (valid (validateCoordinates client (x args) (y args))) eqn:Hvalid.
    + rewrite (handleClick_valid client args Hvalid). cbn [calls fst].
      apply Hsnoc. unfold clickCalls.
      destruct (default false (double args)); reflexivity.
    + rewrite (handleClick_rejected client args Hvalid). apply (Hsnoc []).
      reflexivity.
  - intros x y. rewrite handleMoveMouse_cases.
    destruct (valid (validateCoordinates client x y)).
    + apply (Hsnoc [sendPointerEvent x y (Num 0)]). reflexivity.
    + apply (Hsnoc []). reflexivity.
  - intros input. destruct (parseKeyInput input) as [mods k] eqn:Hparse.
    destruct mods as [|m mods'].
    + rewrite (handleKeyPress_single client input k Hparse). cbn [calls fst].
      generalize (getKeysym k). intros main.
      apply (Hsnoc [sendKeyEvent main true; sleep 50; sendKeyEvent main false]).
      reflexivity.
    + rewrite (handleKeyPress_parsed client input (m :: mods') k Hparse)
        by discriminate.
      cbn [calls fst].
      generalize (getKeysym k) (map getKeysym (m :: mods')). intros main keysyms.
      rewrite !app_assoc. apply Hsnoc.
      rewrite !disconnects_app, !disconnects_pressRelease. reflexivity.
  - intros text enter. rewrite handleTypeText_calls. cbn [calls fst].
    rewrite app_assoc. apply Hsnoc.
    rewrite disconnects_app, disconnects_typedCalls.
    destruct (default false enter); reflexivity.
  - intros lines. rewrite handleTypeMultiline_calls. cbn [calls fst].
    apply Hsnoc, disconnects_lines.
  - intros. repeat split.
Qed.

(** ** Connection setup, continued *)

Lemma run_snoc (events : list event) (e : event) :
  run (events ++ [e]) = dispatch (run events) e.
Proof. unfold run. now rewrite fold_left_app. Qed.

Lemma run_app (before after : list event) :
  run (before ++ after) = fold_left dispatch after (run before).
Proof. unfold run. now rewrite fold_left_app. Qed.

(** X14: the connection promise is resolved at most once and only by a
    frame: whatever the events, resolve has been called at most once, it
    has been called exactly when the first frame was seen, and a resolved
    promise means a 'frameUpdated' event was among them. *)
Theorem createConnection_resolves_on_frame (events : list event) :
  (resolveCalls (run events) <= 1)%nat /\
  (resolveCalls (run events) = 1%nat <->
   hasReceivedInitialFramebuffer (run events) = true) /\
  (hasReceivedInitialFramebuffer (run events) = true <-> frameUpdated ∈ events) /\
  (promise (run events) = Resolved -> frameUpdated ∈ events).
Proof.
  assert (Hinv :
    resolveCalls (run events)
      = (if hasReceivedInitialFramebuffer (run events) then 1 else 0)%nat /\
    (hasReceivedInitialFramebuffer (run events) = true <-> frameUpdated ∈ events) /\
    (promise (run events) = Resolved ->
     hasReceivedInitialFramebuffer (run events) = true)).
  { induction events as [|e rest IH] using rev_ind.
    - repeat split; try discriminate. intros H. inversion H.
    - rewrite run_snoc. destruct IH as (Hcalls & Hseen & Hres).
      set (c := run rest) in *.
      assert (Hmem : forall e', e' <> frameUpdated ->
                (frameUpdated ∈ rest ++ [e'] <-> frameUpdated ∈ rest)).
      { intros e' He'. rewrite elem_of_app, list_elem_of_singleton.
        split; [intros [H | H]; [exact H | congruence] | auto]. }
      destruct e; simpl.
      + rewrite Hmem by discriminate. auto.
      + rewrite Hmem by discriminate. auto.
      + destruct (hasReceivedInitialFramebuffer c) eqn:Hflag.
        * rewrite Hflag. repeat split; auto.
          intros _. apply elem_of_app. left. now apply Hseen.
        * simpl. rewrite Hcalls. repeat split; auto.
          intros _. apply elem_of_app. right. now apply list_elem_of_singleton.
      + rewrite Hmem by discriminate. repeat split; try tauto.
        intros H. apply Hres. destruct (promise c); simpl in H; congruence.
      + rewrite Hmem by discriminate. auto.
      + rewrite Hmem by discriminate.
        destruct (deadlineArmed c); simpl; [|auto].
        repeat split; try tauto.
        intros H. apply Hres. destruct (promise c); simpl in H; congruence. }
  destruct Hinv as (Hcalls & Hseen & Hres).
  split; [|split; [|split]].
  - rewrite Hcalls. destruct (hasReceivedInitialFramebuffer _); lia.
  - rewrite Hcalls. destruct (hasReceivedInitialFramebuffer _); split;
      (reflexivity || discriminate).
  - exact Hseen.
  - intros H. apply Hseen, Hres, H.
Qed.

Lemma createConnection_resolves_on_frame_witness :
  promise (run [connected; frameUpdated; frameUpdated]) = Resolved /\
  resolveCalls (run [connected; frameUpdated; frameUpdated]) = 1%nat /\
  frameUpdated ∈ [connected; frameUpdated; frameUpdated].
Proof.
  destruct (createConnection_resolves_on_frame
              [connected; frameUpdated; frameUpdated])
    as (_ & Hcalls & Hseen & Hresolved).
  split; [reflexivity|]. split.
  - apply Hcalls. reflexivity.
  - apply Hresolved. reflexivity.
Defined.

Lemma settled_stays (c : connection) (later : list event) :
  promise c <> Pending -> promise (fold_left dispatch later c) = promise c.
Proof.
  revert c. induction later as [|e rest IH]; intros c Hset; [reflexivity|].
  simpl. rewrite IH; rewrite promise_settles_once; auto.
Qed.

(** X15: the first settlement of the connection promise stands: once it is
    resolved or rejected, no later event, be it a frame, an error or the
    deadline, changes its state. *)
Theorem createConnection_first_settlement_stands (before later : list event) :
  promise (run before) <> Pending ->
  promise (run (before ++ later)) = promise (run before).
Proof.
  intros Hset. rewrite run_app. now apply settled_stays.
Qed.

Lemma createConnection_first_settlement_stands_witness :
  promise (run ([frameUpdated] ++ [errorEvent "reset"; deadlineFires]))
    = promise (run [frameUpdated]).
Proof.
  apply createConnection_first_settlement_stands. discriminate.
Defined.

Lemma quiet_dispatch (c : connection) (e : event) :
  isQuiet e = true -> promise (dispatch c e) = promise c.
Proof. destruct e; try discriminate; reflexivity. Qed.

(** X16: what can settle the connection promise.  The 'connected',
    'authenticated' and 'disconnect' events never do: after any number of
    them the promise is still pending, so a remote disconnect alone does
    not fail the attempt.  A rejection carries either the timeout message
    of the deadline or the message of an 'error' event that was received. *)
Theorem createConnection_settling_events (events : list event) :
  (forallb isQuiet events = true -> promise (run events) = Pending) /\
  (forall message,
     promise (run events) = Rejected message ->
     (message = "VNC connection timeout"%string /\ deadlineFires ∈ events) \/
     (exists reason,
        message = ("VNC connection error: " +:+ reason)%string /\
        errorEvent reason ∈ events)).
Proof.
  split.
  - induction events as [|e rest IH] using rev_ind; [reflexivity|].
    rewrite forallb_app. intros [Hrest He]%andb_true_iff.
    simpl in He. rewrite andb_true_r in He.
    rewrite run_snoc, quiet_dispatch by exact He. now apply IH.
  - induction events as [|e rest IH] using rev_ind; [discriminate|].
    intros message. rewrite run_snoc.
    assert (Hkeep : promise (run rest) = Rejected message ->
              (message = "VNC connection timeout"%string
               /\ deadlineFires ∈ rest ++ [e]) \/
              (exists reason,
                 message = ("VNC connection error: " +:+ reason)%string /\
                 errorEvent reason ∈ rest ++ [e])).
    { intros H. destruct (IH message H) as [[-> Hin] | (reason & -> & Hin)].
      - left. split; [reflexivity | apply elem_of_app; now left].
      - right. exists reason. split; [reflexivity | apply elem_of_app; now left]. }
    set (c := run rest) in *.
    destruct e; simpl; try exact Hkeep.
    + destruct (hasReceivedInitialFramebuffer c); [exact Hkeep|]. simpl.
      destruct (promise c) eqn:Hp; simpl; try discriminate; exact Hkeep.
    + destruct (promise c) eqn:Hp; simpl; try discriminate; [|exact Hkeep].
      intros [= <-]. right. exists message0.
      split; [reflexivity | apply elem_of_app; right; now apply list_elem_of_singleton].
    + destruct (deadlineArmed c); [|exact Hkeep]. simpl.
      destruct (promise c) eqn:Hp; simpl; try discriminate; [|exact Hkeep].
      intros [= <-]. left.
      split; [reflexivity | apply elem_of_app; right; now apply list_elem_of_singleton].
Qed.

Lemma createConnection_settling_events_witness :
  promise (run [connected; authenticated (Some 800) (Some 600);
                disconnectEvent "closed"]) = Pending.
Proof.
  destruct (createConnection_settling_events
              [connected; authenticated (Some 800) (Some 600);
               disconnectEvent "closed"]) as [Hquiet _].
  apply Hquiet. reflexivity.
Defined.

(** ** Pixel conversion, continued *)

Lemma writeQuad_length (i : nat) (v0 v1 v2 v3 : Z) (t : Buffer) :
  length (writeQuad i v0 v1 v2 v3 t) = length t.
Proof. unfold writeQuad. now rewrite !store_length. Qed.

Lemma writeQuad_other (i k : nat) (v0 v1 v2 v3 : Z) (t : Buffer) :
  (k < i * 4 \/ i * 4 + 4 <= k)%nat ->
  writeQuad i v0 v1 v2 v3 t !! k = t !! k.
Proof.
  intros Hk. unfold writeQuad, store, Buffer in *.
  rewrite !list_lookup_insert_ne by lia. reflexivity.
Qed.

Lemma writeQuad_same (i : nat) (v0 v1 v2 v3 : Z) (t : Buffer) :
  (i * 4 + 3 < length t)%nat ->
  writeQuad i v0 v1 v2 v3 t !! (i * 4)%nat = Some (toUint8 v0) /\
  writeQuad i v0 v1 v2 v3 t !! (i * 4 + 1)%nat = Some (toUint8 v1) /\
  writeQuad i v0 v1 v2 v3 t !! (i * 4 + 2)%nat = Some (toUint8 v2) /\
  writeQuad i v0 v1 v2 v3 t !! (i * 4 + 3)%nat = Some (toUint8 v3).
Proof.
  intros Hlen. unfold writeQuad, store, Buffer in *. repeat split.
  - rewrite !list_lookup_insert_ne by lia.
    apply list_lookup_insert_eq. lia.
  - rewrite !list_lookup_insert_ne by lia.
    apply list_lookup_insert_eq. rewrite length_insert. lia.
  - rewrite list_lookup_insert_ne by lia.
    apply list_lookup_insert_eq. rewrite !length_insert. lia.
  - apply list_lookup_insert_eq. rewrite !length_insert. lia.
Qed.

(** After the loop, pixel [i] of the target holds the four values the loop
    body stored for it. *)
Lemma forPixels_quads (n : nat) (body : nat -> Buffer -> Buffer)
    (v0 v1 v2 v3 : nat -> Z) (t : Buffer) :
  (forall i t', body i t' = writeQuad i (v0 i) (v1 i) (v2 i) (v3 i) t') ->
  (n * 4 <= length t)%nat ->
  forall i, (i < n)%nat ->
    let out := forPixels (Z.of_nat n) body t in
    out !! (i * 4)%nat = Some (toUint8 (v0 i)) /\
    out !! (i * 4 + 1)%nat = Some (toUint8 (v1 i)) /\
    out !! (i * 4 + 2)%nat = Some (toUint8 (v2 i)) /\
    out !! (i * 4 + 3)%nat = Some (toUint8 (v3 i)).
Proof.
  intros Hbody. unfold forPixels. rewrite Nat2Z.id.
  induction n as [|n IH]; intros Hlen i Hi; [lia|].
  rewrite seq_S, foldl_app. cbn [foldl Nat.add].
  set (prev := foldl (fun t0 i0 => body i0 t0) t (seq 0 n)) in *.
  assert (Hprev : length prev = length t).
  { unfold prev. rewrite <- (Nat2Z.id n) at 1.
    apply (forPixels_length (Z.of_nat n)).
    intros j t'. rewrite Hbody. apply writeQuad_length. }
  rewrite Hbody.
  destruct (Nat.eq_dec i n) as [-> | Hne].
  - apply writeQuad_same. lia.
  - rewrite !writeQuad_other by lia. apply IH; lia.
Qed.

Lemma byteAt_lookup (buffer : Buffer) (i : nat) (b : Z) :
  buffer !! i = Some b -> byteAt buffer i = b.
Proof. unfold byteAt. now intros ->. Qed.

Lemma toUint8_byte (b : Z) : 0 <= b < 256 -> toUint8 b = b.
Proof. intros Hb. unfold toUint8. apply Z.mod_small, Hb. Qed.

Lemma allBytes_lookup (buffer : Buffer) (i : nat) (b : Z) :
  allBytes buffer -> buffer !! i = Some b -> 0 <= b < 256.
Proof.
  intros Hall Hi. unfold allBytes in Hall. rewrite Forall_forall in Hall.
  apply Hall. eapply list_elem_of_lookup_2, Hi.
Qed.

Lemma convertToRGBA_branch (buffer : Buffer) (width height : Z)
    (pixelFormat : PixelFormat) (k : Z) :
  width * height <> 0 -> In k [1; 2; 3] -> len buffer = k * (width * height) ->
  convertToRGBA buffer width height pixelFormat =
    ([], inr (forPixels (width * height)
                (if k =? 3 then rgb24Pixel buffer
                 else if k =? 2 then rgb565Pixel buffer
                 else indexedPixel buffer)
                (alloc (width * height * 4)))).
Proof.
  intros Hne Hk Hlen. unfold convertToRGBA.
  change 3%Q with (inject_Z 3). change 2%Q with (inject_Z 2).
  change 1%Q with (inject_Z 1). rewrite !bytesPerPixelOf_is by exact Hne.
  simpl in Hk. destruct Hk as [<- | [<- | [<- | []]]]; simpl.
  - replace (len buffer =? 3 * (width * height)) with false by nia.
    replace (len buffer =? 2 * (width * height)) with false by nia.
    replace (len buffer =? 1 * (width * height)) with true by lia. reflexivity.
  - replace (len buffer =? 3 * (width * height)) with false by nia.
    replace (len buffer =? 2 * (width * height)) with true by lia. reflexivity.
  - replace (len buffer =? 3 * (width * height)) with true by lia. reflexivity.
Qed.

Lemma alloc_quads (pixelCount : Z) :
  0 <= pixelCount ->
  (Z.to_nat pixelCount * 4 <= length (alloc (pixelCount * 4)))%nat.
Proof. intros H. unfold alloc. rewrite length_replicate. lia. Qed.

(** X17: a 3-bytes-per-pixel frame is converted channel by channel: pixel
    i of the result has the red, green and blue bytes of pixel i of the
    source, in that order, and alpha 255. *)
Theorem convertToRGBA_rgb24 (buffer : Buffer) (width height : Z)
    (pixelFormat : PixelFormat) :
  0 < width * height -> len buffer = 3 * (width * height) -> allBytes buffer ->
  exists out,
    convertToRGBA buffer width height pixelFormat = ([], inr out) /\
    forall i, (i < Z.to_nat (width * height))%nat ->
      out !! (i * 4)%nat = buffer !! (i * 3)%nat /\
      out !! (i * 4 + 1)%nat = buffer !! (i * 3 + 1)%nat /\
      out !! (i * 4 + 2)%nat = buffer !! (i * 3 + 2)%nat /\
      out !! (i * 4 + 3)%nat = Some 255.
Proof.
  intros Hpc Hlen Hbytes.
  rewrite (convertToRGBA_branch buffer width height pixelFormat 3)
    by (simpl; auto; lia).
  eexists. split; [reflexivity|]. intros i Hi. cbn [Z.eqb Pos.eqb].
  assert (Hsrc : forall j, (j < 3)%nat -> exists b,
            buffer !! (i * 3 + j)%nat = Some b /\ 0 <= b < 256).
  { intros j Hj.
    destruct (lookup_lt_is_Some_2 buffer (i * 3 + j)) as [b Hb].
    - unfold len in Hlen. clear - Hpc Hlen Hi Hj.
      remember (width * height) as pc eqn:E. clear E. lia.
    - exists b. split; [exact Hb | eapply allBytes_lookup; eauto]. }
  destruct (Hsrc 0%nat ltac:(lia)) as (r & Hr & Hrb).
  destruct (Hsrc 1%nat ltac:(lia)) as (g & Hg & Hgb).
  destruct (Hsrc 2%nat ltac:(lia)) as (b & Hb & Hbb).
  rewrite Nat.add_0_r in Hr.
  pose proof (forPixels_quads (Z.to_nat (width * height)) (rgb24Pixel buffer)
                (fun i => byteAt buffer (i * 3))
                (fun i => byteAt buffer (i * 3 + 1))
                (fun i => byteAt buffer (i * 3 + 2))
                (fun _ => 255) (alloc (width * height * 4))
                ltac:(reflexivity)
                (alloc_quads (width * height) ltac:(lia)) i Hi) as Hquad.
  cbv zeta in Hquad. rewrite Z2Nat.id in Hquad by lia.
  destruct Hquad as (H0 & H1 & H2 & H3).
  rewrite H0, H1, H2, H3, Hr, Hg, Hb.
  rewrite (byteAt_lookup _ _ _ Hr), (byteAt_lookup _ _ _ Hg),
    (byteAt_lookup _ _ _ Hb), !toUint8_byte by lia.
  auto.
Qed.

Lemma convertToRGBA_rgb24_witness :
  exists out,
    convertToRGBA rgb24TwoPixels 2 1 bgrx = ([], inr out) /\
    out !! 4%nat = Some 40 /\ out !! 7%nat = Some 255.
Proof.
  assert (Hbytes : allBytes rgb24TwoPixels) by (repeat constructor; lia).
  destruct (convertToRGBA_rgb24 rgb24TwoPixels 2 1 bgrx
              ltac:(lia) ltac:(reflexivity) Hbytes) as (out & Hout & Hpix).
  exists out. split; [exact Hout|].
  destruct (Hpix 1%nat ltac:(simpl; lia)) as (H0 & _ & _ & H3).
  split; [exact H0 | exact H3].
Defined.

Lemma converted_pixels (buffer : Buffer) (width height : Z)
    (pixelFormat : PixelFormat) (k : Z) (v0 v1 v2 v3 : nat -> Z) :
  0 < width * height -> In k [1; 2; 3] -> len buffer = k * (width * height) ->
  (forall i t,
     (if k =? 3 then rgb24Pixel buffer
      else if k =? 2 then rgb565Pixel buffer else indexedPixel buffer) i t
     = writeQuad i (v0 i) (v1 i) (v2 i) (v3 i) t) ->
  exists out,
    convertToRGBA buffer width height pixelFormat = ([], inr out) /\
    forall i, (i < Z.to_nat (width * height))%nat ->
      out !! (i * 4)%nat = Some (toUint8 (v0 i)) /\
      out !! (i * 4 + 1)%nat = Some (toUint8 (v1 i)) /\
      out !! (i * 4 + 2)%nat = Some (toUint8 (v2 i)) /\
      out !! (i * 4 + 3)%nat = Some (toUint8 (v3 i)).
Proof.
  intros Hpc Hk Hlen Hbody.
  rewrite (convertToRGBA_branch buffer width height pixelFormat k)
    by (auto; lia).
  eexists. split; [reflexivity|]. intros i Hi.
  pose proof (forPixels_quads (Z.to_nat (width * height)) _ v0 v1 v2 v3
                (alloc (width * height * 4)) Hbody
                (alloc_quads (width * height) ltac:(lia)) i Hi) as Hquad.
  cbv zeta in Hquad. rewrite Z2Nat.id in Hquad by lia. exact Hquad.
Qed.

Lemma source_byte (buffer : Buffer) (pixelCount k : Z) (i j : nat) :
  0 < pixelCount -> len buffer = k * pixelCount -> allBytes buffer ->
  (i < Z.to_nat pixelCount)%nat -> (Z.of_nat j < k) ->
  exists b, buffer !! (i * Z.to_nat k + j)%nat = Some b /\ 0 <= b < 256.
Proof.
  intros Hpc Hlen Hbytes Hi Hj.
  destruct (lookup_lt_is_Some_2 buffer (i * Z.to_nat k + j)) as [b Hb].
  - unfold len in Hlen. nia.
  - exists b. split; [exact Hb | eapply allBytes_lookup; eauto].
Qed.

(** X18: a 1-byte-per-pixel frame becomes grey: red, green and blue of
    pixel i are all the source byte i, and alpha is 255. *)
Theorem convertToRGBA_indexed (buffer : Buffer) (width height : Z)
    (pixelFormat : PixelFormat) :
  0 < width * height -> len buffer = 1 * (width * height) -> allBytes buffer ->
  exists out,
    convertToRGBA buffer width height pixelFormat = ([], inr out) /\
    forall i, (i < Z.to_nat (width * height))%nat ->
      out !! (i * 4)%nat = buffer !! i /\
      out !! (i * 4 + 1)%nat = buffer !! i /\
      out !! (i * 4 + 2)%nat = buffer !! i /\
      out !! (i * 4 + 3)%nat = Some 255.
Proof.
  intros Hpc Hlen Hbytes.
  destruct (converted_pixels buffer width height pixelFormat 1
              (fun i => byteAt buffer i) (fun i => byteAt buffer i)
              (fun i => byteAt buffer i) (fun _ => 255)
              Hpc ltac:(simpl; auto) Hlen ltac:(reflexivity))
    as (out & Hout & Hpix).
  exists out. split; [exact Hout|]. intros i Hi.
  destruct (Hpix i Hi) as (H0 & H1 & H2 & H3).
  destruct (source_byte buffer (width * height) 1 i 0 Hpc Hlen Hbytes Hi
              ltac:(lia)) as (b & Hb & Hrange).
  replace (i * Z.to_nat 1 + 0)%nat with i in Hb by lia.
  rewrite H0, H1, H2, H3, Hb, (byteAt_lookup _ _ _ Hb), toUint8_byte by lia.
  auto.
Qed.

Lemma convertToRGBA_indexed_witness :
  exists out,
    convertToRGBA [7; 200] 2 1 bgrx = ([], inr out) /\
    out !! 4%nat = Some 200 /\ out !! 6%nat = Some 200 /\ out !! 7%nat = Some 255.
Proof.
  assert (Hbytes : allBytes [7; 200]) by (repeat constructor; lia).
  destruct (convertToRGBA_indexed [7; 200] 2 1 bgrx
              ltac:(lia) ltac:(reflexivity) Hbytes) as (out & Hout & Hpix).
  exists out. split; [exact Hout|].
  destruct (Hpix 1%nat ltac:(simpl; lia)) as (H0 & _ & H2 & H3).
  repeat split; assumption.
Defined.

Lemma toInt32_small (x : Z) : 0 <= x < 2 ^ 31 -> toInt32 x = x.
Proof.
  intros Hx. unfold toInt32. rewrite Z.mod_small by lia.
  destruct (x <? 2 ^ 31) eqn:E; [reflexivity | apply Z.ltb_ge in E; lia].
Qed.

Lemma land_byte_shifted (lo hi : Z) :
  0 <= lo < 256 -> Z.land lo (hi * 2 ^ 8) = 0.
Proof.
  intros Hlo. apply Z.bits_inj'. intros n Hn.
  rewrite Z.land_spec, Z.bits_0.
  destruct (Z.lt_ge_cases n 8) as [Hlow | Hhigh].
  - rewrite Z.mul_pow2_bits_low by lia. apply andb_false_r.
  - destruct (Z.eq_dec lo 0) as [-> | Hnz]; [now rewrite Z.bits_0|].
    rewrite (Z.bits_above_log2 lo n); [reflexivity | lia |].
    assert (Z.log2 lo < 8) by (apply Z.log2_lt_pow2; lia). lia.
Qed.

Lemma bor_bytes (lo hi : Z) :
  0 <= lo < 256 -> 0 <= hi < 256 -> bor lo (shl hi 8) = pixel16Of lo hi.
Proof.
  intros Hlo Hhi. unfold bor, shl, pixel16Of.
  change (Z.land 8 31) with 8.
  rewrite (toInt32_small hi) by lia.
  rewrite Z.shiftl_mul_pow2 by lia.
  rewrite !(toInt32_small (hi * 2 ^ 8)) by lia.
  rewrite (toInt32_small lo) by lia.
  pose proof (Z.add_lor_land lo (hi * 2 ^ 8)) as Hadd.
  rewrite land_byte_shifted in Hadd by lia.
  rewrite toInt32_small by lia. lia.
Qed.

Lemma band_sar_ones (p shift bits : Z) :
  0 <= p < 2 ^ 16 -> 0 <= shift < 32 -> 0 <= bits < 31 ->
  band (sar p shift) (Z.ones bits) = (p / 2 ^ shift) mod 2 ^ bits.
Proof.
  intros Hp Hshift Hbits. unfold band, sar.
  replace (Z.land shift 31) with shift.
  2:{ change 31 with (Z.ones 5). rewrite Z.land_ones, Z.mod_small; lia. }
  rewrite (toInt32_small p) by lia.
  rewrite Z.shiftr_div_pow2 by lia.
  assert (Hq : 0 <= p / 2 ^ shift < 2 ^ 16).
  { split; [apply Z.div_pos; lia|].
    apply Z.le_lt_trans with p; [|lia].
    apply Z.div_le_upper_bound; [lia|]. nia. }
  assert (Hones : 0 <= Z.ones bits < 2 ^ 31).
  { rewrite Z.ones_equiv. split; [lia|].
    assert (2 ^ bits <= 2 ^ 31) by (apply Z.pow_le_mono_r; lia). lia. }
  rewrite (toInt32_small (p / 2 ^ shift)), (toInt32_small (Z.ones bits)) by lia.
  rewrite Z.land_ones by lia.
  apply toInt32_small.
  pose proof (Z.mod_pos_bound (p / 2 ^ shift) (2 ^ bits) ltac:(lia)).
  assert (2 ^ bits <= 2 ^ 31) by (apply Z.pow_le_mono_r; lia). lia.
Qed.

Lemma rgb565_channels (lo hi : Z) :
  0 <= lo < 256 -> 0 <= hi < 256 ->
  let pixel16 := bor lo (shl hi 8) in
  let p := pixel16Of lo hi in
  toUint8 (band (sar pixel16 11) 0x1F * 255 / 31) = red565 p /\
  toUint8 (band (sar pixel16 5) 0x3F * 255 / 63) = green565 p /\
  toUint8 (band pixel16 0x1F * 255 / 31) = blue565 p /\
  0 <= red565 p <= 255 /\ 0 <= green565 p <= 255 /\ 0 <= blue565 p <= 255.
Proof.
  intros Hlo Hhi. cbv zeta. rewrite bor_bytes by assumption.
  assert (Hp : 0 <= pixel16Of lo hi < 2 ^ 16) by (unfold pixel16Of; lia).
  generalize dependent (pixel16Of lo hi). intros p Hp.
  pose proof (band_sar_ones p 11 5 Hp ltac:(lia) ltac:(lia)) as Hr.
  pose proof (band_sar_ones p 5 6 Hp ltac:(lia) ltac:(lia)) as Hg.
  pose proof (band_sar_ones p 0 5 Hp ltac:(lia) ltac:(lia)) as Hb.
  change (Z.ones 5) with 0x1F in Hr, Hb. change (Z.ones 6) with 0x3F in Hg.
  assert (Hsar0 : sar p 0 = p).
  { unfold sar. change (Z.land 0 31) with 0.
    rewrite toInt32_small by lia. apply Z.shiftr_0_r. }
  rewrite Hsar0 in Hb. rewrite Hr, Hg, Hb.
  change (2 ^ 0) with 1. rewrite Z.div_1_r.
  assert (Hr5 : (p / 2 ^ 11) mod 2 ^ 5 = p / 2048).
  { apply Z.mod_small. split; [apply Z.div_pos; lia|].
    apply Z.div_lt_upper_bound; lia. }
  rewrite Hr5. unfold red565, green565, blue565, toUint8.
  change (2 ^ 5) with 32. change (2 ^ 6) with 64. change (2 ^ 11) with 2048.
  assert (Hrq : 0 <= p / 2048 <= 31).
  { split; [apply Z.div_pos; lia|].
    apply Z.lt_succ_r, Z.div_lt_upper_bound; lia. }
  pose proof (Z.mod_pos_bound (p / 32) 64 ltac:(lia)) as Hgq.
  pose proof (Z.mod_pos_bound p 32 ltac:(lia)) as Hbq.
  assert (Hscale5 : forall v, 0 <= v <= 31 -> 0 <= v * 255 / 31 <= 255).
  { intros v Hv. split; [apply Z.div_pos; lia|].
    apply Z.lt_succ_r, Z.div_lt_upper_bound; lia. }
  assert (Hscale6 : forall v, 0 <= v <= 63 -> 0 <= v * 255 / 63 <= 255).
  { intros v Hv. split; [apply Z.div_pos; lia|].
    apply Z.lt_succ_r, Z.div_lt_upper_bound; lia. }
  pose proof (Hscale5 (p / 2048) Hrq).
  pose proof (Hscale6 ((p / 32) mod 64) ltac:(lia)).
  pose proof (Hscale5 (p mod 32) ltac:(lia)).
  rewrite (Z.mod_small (p / 2048 * 255 / 31) 256),
    (Z.mod_small ((p / 32) mod 64 * 255 / 63) 256),
    (Z.mod_small (p mod 32 * 255 / 31) 256) by lia.
  repeat split; lia.
Qed.

(** X19: a 2-bytes-per-pixel frame is read as little-endian RGB565: with
    p the 16-bit value of the two bytes of pixel i, the result has red
    (p / 2048) * 255 / 31, green ((p / 32) mod 64) * 255 / 63, blue
    (p mod 32) * 255 / 31 and alpha 255; each channel stays between 0 and
    255, so nothing wraps when it is stored. *)
Theorem convertToRGBA_rgb565 (buffer : Buffer) (width height : Z)
    (pixelFormat : PixelFormat) :
  0 < width * height -> len buffer = 2 * (width * height) -> allBytes buffer ->
  exists out,
    convertToRGBA buffer width height pixelFormat = ([], inr out) /\
    forall i, (i < Z.to_nat (width * height))%nat ->
      exists lo hi,
        buffer !! (i * 2)%nat = Some lo /\ buffer !! (i * 2 + 1)%nat = Some hi /\
        let p := pixel16Of lo hi in
        out !! (i * 4)%nat = Some (red565 p) /\
        out !! (i * 4 + 1)%nat = Some (green565 p) /\
        out !! (i * 4 + 2)%nat = Some (blue565 p) /\
        out !! (i * 4 + 3)%nat = Some 255 /\
        0 <= red565 p <= 255 /\ 0 <= green565 p <= 255 /\ 0 <= blue565 p <= 255.
Proof.
  intros Hpc Hlen Hbytes.
  set (pixel16 := fun i => bor (byteAt buffer (i * 2))
                               (shl (byteAt buffer (i * 2 + 1)) 8)).
  destruct (converted_pixels buffer width height pixelFormat 2
              (fun i => band (sar (pixel16 i) 11) 0x1F * 255 / 31)
              (fun i => band (sar (pixel16 i) 5) 0x3F * 255 / 63)
              (fun i => band (pixel16 i) 0x1F * 255 / 31)
              (fun _ => 255)
              Hpc ltac:(simpl; auto) Hlen ltac:(reflexivity))
    as (out & Hout & Hpix).
  exists out. split; [exact Hout|]. intros i Hi.
  destruct (Hpix i Hi) as (H0 & H1 & H2 & H3).
  destruct (source_byte buffer (width * height) 2 i 0 Hpc Hlen Hbytes Hi
              ltac:(lia)) as (lo & Hlo & Hlob).
  destruct (source_byte buffer (width * height) 2 i 1 Hpc Hlen Hbytes Hi
              ltac:(lia)) as (hi & Hhi & Hhib).
  replace (i * Z.to_nat 2 + 0)%nat with (i * 2)%nat in Hlo by lia.
  replace (i * Z.to_nat 2 + 1)%nat with (i * 2 + 1)%nat in Hhi by lia.
  exists lo, hi. split; [exact Hlo|]. split; [exact Hhi|].
  destruct (rgb565_channels lo hi Hlob Hhib) as (Hr & Hg & Hb & Hrr & Hgr & Hbr).
  unfold pixel16 in H0, H1, H2.
  rewrite (byteAt_lookup _ _ _ Hlo), (byteAt_lookup _ _ _ Hhi) in H0, H1, H2.
  cbv zeta. rewrite H0, H1, H2, H3, Hr, Hg, Hb.
  repeat split; lia.
Qed.

Lemma convertToRGBA_rgb565_witness :
  exists out,
    convertToRGBA rgb565WhiteBlue 2 1 bgrx = ([], inr out) /\
    exists lo hi,
      rgb565WhiteBlue !! 2%nat = Some lo /\ rgb565WhiteBlue !! 3%nat = Some hi /\
      out !! 4%nat = Some (red565 (pixel16Of lo hi)) /\
      out !! 6%nat = Some (blue565 (pixel16Of lo hi)).
Proof.
  assert (Hbytes : allBytes rgb565WhiteBlue) by (repeat constructor; lia).
  destruct (convertToRGBA_rgb565 rgb565WhiteBlue 2 1 bgrx
              ltac:(lia) ltac:(reflexivity) Hbytes) as (out & Hout & Hpix).
  exists out. split; [exact Hout|].
  destruct (Hpix 1%nat ltac:(simpl; lia))
    as (lo & hi & Hlo & Hhi & H0 & _ & H2 & _).
  exists lo, hi. repeat split; assumption.
Defined.

(** ** Screenshot: outcomes and effects *)

Section ScreenshotOutcomes.
Variable sharp : SharpJob -> Buffer.
Variable base64 : Buffer -> string.

Let shoot := handleScreenshot sharp base64.

Let pipeline (framebuffer : Buffer) (width height delay : Z)
    (pixelFormat : PixelFormat) : prog ToolResult :=
  framebuffer ← normalizeFramebuffer framebuffer width height pixelFormat ;
  captureScreenshotWithDimensions sharp base64 width height framebuffer delay.

Lemma pipeline_calls (framebuffer : Buffer) (width height delay : Z)
    (pixelFormat : PixelFormat) :
  calls (pipeline framebuffer width height delay pixelFormat) = [].
Proof.
  unfold pipeline, normalizeFramebuffer, validateFramebufferSize, convertToRGBA,
    captureScreenshotWithDimensions.
  repeat match goal with
         | |- context [if ?b then _ else _] => destruct b; simpl
         end; reflexivity.
Qed.

Lemma pipeline_supported (framebuffer : Buffer) (width height delay : Z)
    (pixelFormat : PixelFormat) (k : Z) :
  0 < width * height -> In k [1; 2; 3; 4] ->
  len framebuffer = k * (width * height) ->
  exists result,
    pipeline framebuffer width height delay pixelFormat = ([], inr result).
Proof.
  intros Hpc Hk Hlen. unfold pipeline.
  assert (Hcases : k = 4 \/ In k [1; 2; 3]) by (simpl in *; intuition).
  destruct Hcases as [-> | Hk3].
  - rewrite normalizeFramebuffer_rgb32 by lia.
    destruct (captureScreenshotWithDimensions_rgba sharp base64 width height
                framebuffer delay) as [result Hresult]; [lia | lia |].
    exists result. simpl. now rewrite Hresult.
  - destruct (normalizeFramebuffer_converted framebuffer width height
                pixelFormat k Hpc Hk3 Hlen) as (out & Hout & _ & Houtlen).
    rewrite Hout.
    destruct (captureScreenshotWithDimensions_rgba sharp base64 width height
                out delay) as [result Hresult]; [lia | lia |].
    exists result. simpl. now rewrite Hresult.
Qed.

Lemma pipeline_unsupported (framebuffer : Buffer) (width height delay : Z)
    (pixelFormat : PixelFormat) :
  0 < width * height ->
  (forall k, In k [1; 2; 3; 4] -> len framebuffer <> k * (width * height)) ->
  pipeline framebuffer width height delay pixelFormat =
    ([], inl (UnsupportedPixelFormat
                (bytesPerPixelOf framebuffer (width * height)))).
Proof.
  intros Hpc Hnone. unfold pipeline, normalizeFramebuffer, convertToRGBA.
  assert (Hne : width * height <> 0) by lia.
  change 4%Q with (inject_Z 4). change 3%Q with (inject_Z 3).
  change 2%Q with (inject_Z 2). change 1%Q with (inject_Z 1).
  rewrite !bytesPerPixelOf_is by exact Hne.
  pose proof (Hnone 1 ltac:(simpl; auto)) as H1.
  pose proof (Hnone 2 ltac:(simpl; auto)) as H2.
  pose proof (Hnone 3 ltac:(simpl; auto)) as H3.
  pose proof (Hnone 4 ltac:(simpl; auto)) as H4.
  apply Z.eqb_neq in H1, H2, H3, H4. rewrite H1, H2, H3, H4. reflexivity.
Qed.

Lemma pipeline_cases (framebuffer : Buffer) (width height delay : Z)
    (pixelFormat : PixelFormat) :
  0 < width * height ->
  (exists result,
     pipeline framebuffer width height delay pixelFormat = ([], inr result)) \/
  pipeline framebuffer width height delay pixelFormat =
    ([], inl (UnsupportedPixelFormat
                (bytesPerPixelOf framebuffer (width * height)))).
Proof.
  intros Hpc.
  destruct (Z.eq_dec (len framebuffer) (1 * (width * height))) as [E1 | N1];
    [left; apply (pipeline_supported _ _ _ _ _ 1); simpl; auto|].
  destruct (Z.eq_dec (len framebuffer) (2 * (width * height))) as [E2 | N2];
    [left; apply (pipeline_supported _ _ _ _ _ 2); simpl; auto|].
  destruct (Z.eq_dec (len framebuffer) (3 * (width * height))) as [E3 | N3];
    [left; apply (pipeline_supported _ _ _ _ _ 3); simpl; auto|].
  destruct (Z.eq_dec (len framebuffer) (4 * (width * height))) as [E4 | N4];
    [left; apply (pipeline_supported _ _ _ _ _ 4); simpl; auto|].
  right. apply pipeline_unsupported; [exact Hpc|].
  intros k Hk. simpl in Hk.
  destruct Hk as [<- | [<- | [<- | [<- | []]]]]; assumption.
Qed.

Lemma handleScreenshot_pipeline (client : VncClient) (frameEvent : option Buffer)
    (args : ScreenshotArgs) (framebuffer : Buffer) :
  or_zero (delay args) <= 300000 ->
  or_zero (clientWidth client) <> 0 -> or_zero (clientHeight client) <> 0 ->
  match frameEvent with Some b => Some b | None => fb client end
    = Some framebuffer ->
  outcome (shoot (inr client) frameEvent args) =
    outcome (pipeline framebuffer (or_zero (clientWidth client))
               (or_zero (clientHeight client)) (or_zero (delay args))
               (pixelFormat client)).
Proof.
  intros Hdelay Hw Hh Hframe. unfold shoot.
  rewrite handleScreenshot_connected by assumption. cbv zeta.
  rewrite Hframe. unfold pipeline.
  destruct (_ ← normalizeFramebuffer _ _ _ _; _) as [t r]. reflexivity.
Qed.

(** X20: with a usable delay, a screen of positive size and a frame at hand
    (delivered by the event or, failing that, the session's last one), the
    screenshot succeeds exactly for frames of 1, 2, 3 or 4 bytes per pixel;
    any other length fails with the unsupported-pixel-format error that
    carries the exact bytes-per-pixel ratio. *)
Theorem handleScreenshot_supported_frames (client : VncClient)
    (frameEvent : option Buffer) (args : ScreenshotArgs) (framebuffer : Buffer) :
  let width := or_zero (clientWidth client) in
  let height := or_zero (clientHeight client) in
  or_zero (delay args) <= 300000 -> 0 < width -> 0 < height ->
  match frameEvent with Some b => Some b | None => fb client end
    = Some framebuffer ->
  ((exists k, In k [1; 2; 3; 4] /\ len framebuffer = k * (width * height)) ->
   exists result, outcome (shoot (inr client) frameEvent args) = inr result) /\
  ((forall k, In k [1; 2; 3; 4] -> len framebuffer <> k * (width * height)) ->
   outcome (shoot (inr client) frameEvent args) =
     inl (UnsupportedPixelFormat (bytesPerPixelOf framebuffer (width * height)))).
Proof.
  intros width height Hdelay Hw Hh Hframe.
  assert (Hpc : 0 < width * height) by lia.
  rewrite (handleScreenshot_pipeline client frameEvent args framebuffer)
    by (fold width height; (assumption || lia)).
  fold width height. split.
  - intros (k & Hk & Hlen).
    destruct (pipeline_supported framebuffer width height (or_zero (delay args))
                (pixelFormat client) k Hpc Hk Hlen) as [result Hresult].
    exists result. now rewrite Hresult.
  - intros Hnone. now rewrite pipeline_unsupported.
Qed.

(** X21: the calls of a screenshot, in every case.  A delay over the limit
    does nothing at all; otherwise a positive delay is slept first, before
    the connection is tried; a session, once obtained, is asked for at most
    one frame update (none when a dimension is zero) and is disconnected
    last, whatever the outcome. *)
Theorem handleScreenshot_calls (connection : string + VncClient)
    (frameEvent : option Buffer) (args : ScreenshotArgs) :
  let delay := or_zero (delay args) in
  calls (shoot connection frameEvent args) =
    if delay >? 300000 then []
    else
      (if delay >? 0 then [sleep delay] else []) ++
      match connection with
      | inl _ => []
      | inr client =>
          let width := or_zero (clientWidth client) in
          let height := or_zero (clientHeight client) in
          (if (width =? 0) || (height =? 0) then []
           else [requestFrameUpdate true 0 0 width height;
                 awaitFrameUpdated 2000])
          ++ [disconnect]
      end.
Proof.
  intros delay.
  destruct (Z.ltb_spec 300000 delay) as [Hlarge | Hdelay].
  { replace (delay >? 300000) with true by lia. unfold shoot.
    now rewrite handleScreenshot_delay_too_large. }
  replace (delay >? 300000) with false by lia.
  destruct connection as [message | client].
  { unfold shoot, handleScreenshot. fold delay.
    replace (delay >? 300000) with false by lia.
    destruct (delay >? 0); reflexivity. }
  cbv zeta.
  destruct ((or_zero (clientWidth client) =? 0)
            || (or_zero (clientHeight client) =? 0)) eqn:Hdims.
  { unfold shoot, handleScreenshot, executeWithConnection. fold delay.
    rewrite Hdims. replace (delay >? 300000) with false by lia.
    destruct (delay >? 0); reflexivity. }
  apply orb_false_iff in Hdims as [Hw Hh].
  apply Z.eqb_neq in Hw, Hh. unfold shoot.
  rewrite handleScreenshot_connected by assumption. cbv zeta. fold delay.
  destruct (match frameEvent with Some b => Some b | None => fb client end)
    as [framebuffer|].
  - pose proof (pipeline_calls framebuffer (or_zero (clientWidth client))
                  (or_zero (clientHeight client)) delay (pixelFormat client))
      as Hquiet.
    unfold pipeline in Hquiet.
    destruct (_ ← normalizeFramebuffer _ _ _ _; _) as [t r].
    simpl in Hquiet. subst t. simpl. rewrite <- app_assoc. reflexivity.
  - simpl. rewrite <- app_assoc. reflexivity.
Qed.

(** X22: for a screen whose dimensions are not negative, a screenshot never
    fails with the size-mismatch error nor with the invalid-bytes-per-pixel
    error: after the conversion both checks always pass. *)
Theorem handleScreenshot_checks_never_fire (connection : string + VncClient)
    (frameEvent : option Buffer) (args : ScreenshotArgs) :
  (forall client, connection = inr client ->
     0 <= or_zero (clientWidth client) /\ 0 <= or_zero (clientHeight client)) ->
  forall e, surfaced (shoot connection frameEvent args) = Some e ->
    (forall expected got, e <> FramebufferSizeMismatch expected got) /\
    (forall ratio, e <> InvalidBytesPerPixel ratio).
Proof.
  intros Hdims e. unfold surfaced.
  destruct (Z.ltb_spec 300000 (or_zero (delay args))) as [Hlarge | Hdelay].
  { unfold shoot. rewrite handleScreenshot_delay_too_large by exact Hlarge.
    simpl. intros [= <-]. split; discriminate. }
  destruct connection as [message | client].
  { unfold shoot. rewrite handleScreenshot_not_connected by exact Hdelay.
    intros [= <-]. split; discriminate. }
  destruct (Hdims client eq_refl) as [Hw0 Hh0].
  destruct (Z.eq_dec (or_zero (clientWidth client)) 0) as [Hw | Hw].
  { unfold shoot. rewrite handleScreenshot_no_dimensions by auto.
    intros [= <-]. split; discriminate. }
  destruct (Z.eq_dec (or_zero (clientHeight client)) 0) as [Hh | Hh].
  { unfold shoot. rewrite handleScreenshot_no_dimensions by auto.
    intros [= <-]. split; discriminate. }
  destruct (match frameEvent with Some b => Some b | None => fb client end)
    as [framebuffer|] eqn:Hframe.
  - rewrite (handleScreenshot_pipeline client frameEvent args framebuffer)
      by assumption.
    destruct (pipeline_cases framebuffer (or_zero (clientWidth client))
                (or_zero (clientHeight client)) (or_zero (delay args))
                (pixelFormat client) ltac:(nia)) as [[result ->] | ->]; simpl.
    + discriminate.
    + intros [= <-]. split; discriminate.
  - unfold shoot. rewrite handleScreenshot_connected by assumption.
    cbv zeta. rewrite Hframe. simpl. intros [= <-]. split; discriminate.
Qed.

End ScreenshotOutcomes.

Lemma handleScreenshot_supported_frames_witness :
  (exists result,
     outcome (handleScreenshot (fun _ => [0xFF; 0xD8]) (fun _ => "/9g="%string)
                (inr noBufferYet) (Some rgb565Red) {| delay := None |})
       = inr result) /\
  outcome (handleScreenshot (fun _ => [0xFF; 0xD8]) (fun _ => "/9g="%string)
             (inr noBufferYet) (Some [1; 2; 3; 4; 5]) {| delay := None |})
    = inl (UnsupportedPixelFormat (bytesPerPixelOf [1; 2; 3; 4; 5] (1 * 1))).
Proof.
  split.
  - destruct (handleScreenshot_supported_frames
                (fun _ => [0xFF; 0xD8]) (fun _ => "/9g="%string)
                noBufferYet (Some rgb565Red) {| delay := None |} rgb565Red
                ltac:(simpl; lia) ltac:(simpl; lia) ltac:(simpl; lia) eq_refl)
      as [Hok _].
    apply Hok. exists 2. split; [simpl; auto | reflexivity].
  - destruct (handleScreenshot_supported_frames
                (fun _ => [0xFF; 0xD8]) (fun _ => "/9g="%string)
                noBufferYet (Some [1; 2; 3; 4; 5]) {| delay := None |}
                [1; 2; 3; 4; 5]
                ltac:(simpl; lia) ltac:(simpl; lia) ltac:(simpl; lia) eq_refl)
      as [_ Hbad].
    apply Hbad. intros k Hk. simpl in Hk.
    destruct Hk as [<- | [<- | [<- | [<- | []]]]]; discriminate.
Defined.

Lemma handleScreenshot_checks_never_fire_witness :
  surfaced (handleScreenshot (fun _ => [0xFF; 0xD8]) (fun _ => "/9g="%string)
              (inr noBufferYet) (Some [1; 2; 3; 4; 5]) {| delay := None |})
    = Some (UnsupportedPixelFormat (bytesPerPixelOf [1; 2; 3; 4; 5] 1)) /\
  (forall expected got,
     UnsupportedPixelFormat (bytesPerPixelOf [1; 2; 3; 4; 5] 1)
       <> FramebufferSizeMismatch expected got) /\
  (forall ratio,
     UnsupportedPixelFormat (bytesPerPixelOf [1; 2; 3; 4; 5] 1)
       <> InvalidBytesPerPixel ratio).
Proof.
  split; [reflexivity|].
  apply (handleScreenshot_checks_never_fire
           (fun _ => [0xFF; 0xD8]) (fun _ => "/9g="%string)
           (inr noBufferYet) (Some [1; 2; 3; 4; 5]) {| delay := None |}).
  - intros client [= <-]. simpl. lia.
  - reflexivity.
Defined.

(** ** Corruption heuristics *)

Lemma byteIs_lookup (framebuffer : Buffer) (i : nat) (b v : Z) :
  framebuffer !! i = Some b -> byteIs framebuffer i v = (b =? v).
Proof. intros H. unfold byteIs. unfold Buffer in *. now rewrite H. Qed.

Lemma sample_uniform (framebuffer : Buffer) (v : Z) (start count : nat)
    (blackPixels whitePixels : Z) :
  (forall p, (start <= p < start + count)%nat ->
     framebuffer !! (4 * p)%nat = Some v /\
     framebuffer !! (4 * p + 1)%nat = Some v /\
     framebuffer !! (4 * p + 2)%nat = Some v) ->
  foldl (samplePixel framebuffer) (blackPixels, whitePixels) (seq start count) =
    (if v =? 0 then blackPixels + Z.of_nat count else blackPixels,
     if v =? 255 then whitePixels + Z.of_nat count else whitePixels).
Proof.
  revert start blackPixels whitePixels.
  induction count as [|count IH]; intros start blackPixels whitePixels Hall.
  - simpl. rewrite !Z.add_0_r. now destruct (v =? 0), (v =? 255).
  - cbn [seq foldl].
    destruct (Hall start ltac:(lia)) as (H0 & H1 & H2).
    unfold samplePixel at 2.
    rewrite !(byteIs_lookup _ _ v) by assumption.
    rewrite !andb_diag.
    rewrite IH by (intros p Hp; apply Hall; lia).
    destruct (v =? 0), (v =? 255); f_equal; lia.
Qed.

Lemma full_ratio_exceeds (n : Z) :
  0 < n -> Qle_bool (inject_Z n / inject_Z n) (9 # 10) = false.
Proof.
  intros Hn. destruct n as [|p|p]; try lia.
  unfold Qle_bool, Qdiv, Qmult, Qinv, inject_Z. simpl.
  apply Z.leb_gt. lia.
Qed.

(** X23: a frame whose sampled pixels (the first 1000, or all of them on a
    smaller screen) are all black, or all white, is reported as corrupted;
    a genuinely blank screen is not told apart. *)
Theorem hasCorruptionPatterns_blank (framebuffer : Buffer) (width height v : Z) :
  0 < width * height -> v = 0 \/ v = 255 ->
  (forall p, (p < Z.to_nat (Z.min 1000 (width * height)))%nat ->
     framebuffer !! (4 * p)%nat = Some v /\
     framebuffer !! (4 * p + 1)%nat = Some v /\
     framebuffer !! (4 * p + 2)%nat = Some v) ->
  hasCorruptionPatterns framebuffer width height = true.
Proof.
  intros Hpc Hv Hall. unfold hasCorruptionPatterns. cbv zeta.
  rewrite (sample_uniform framebuffer v) by (intros p Hp; apply Hall; lia).
  rewrite Z2Nat.id by lia. rewrite !Z.add_0_l.
  destruct Hv as [-> | ->]; simpl (_ =? _); cbv iota.
  - rewrite full_ratio_exceeds by lia. reflexivity.
  - rewrite (full_ratio_exceeds (Z.min 1000 (width * height))) by lia.
    simpl. rewrite ?orb_true_r. reflexivity.
Qed.

Lemma hasCorruptionPatterns_blank_witness :
  hasCorruptionPatterns onePixel 1 1 = true.
Proof.
  apply (hasCorruptionPatterns_blank onePixel 1 1 0); [lia | auto |].
  intros p Hp. assert (p = 0%nat) as -> by (simpl in Hp; lia).
  repeat split; reflexivity.
Defined.

(** ** The unused 32-bit decoder *)

Lemma toInt32_signed (x : Z) : - 2 ^ 31 <= x < 2 ^ 31 -> toInt32 x = x.
Proof.
  intros Hx. unfold toInt32. cbv zeta. change (2 ^ 32) with 4294967296.
  change (2 ^ 31) with 2147483648 in *.
  destruct (x mod 4294967296 <? 2147483648) eqn:E;
    [apply Z.ltb_lt in E | apply Z.ltb_ge in E];
    Z.div_mod_to_equations; lia.
Qed.

Lemma toInt32_word (p : Z) :
  0 <= p < 2 ^ 32 ->
  toInt32 p = if p <? 2 ^ 31 then p else p - 2 ^ 32.
Proof. intros Hp. unfold toInt32. now rewrite Z.mod_small by lia. Qed.

Lemma band_sar_byte (p s : Z) :
  0 <= p < 2 ^ 32 -> In s [0; 8; 16; 24] ->
  band (sar p s) 0xFF = (p / 2 ^ s) mod 256.
Proof.
  intros Hp Hs. unfold band, sar. rewrite (toInt32_word p Hp).
  change (toInt32 255) with 255. change 255 with (Z.ones 8).
  assert (Hshift : Z.land s 31 = s).
  { simpl in Hs.
    destruct Hs as [<- | [<- | [<- | [<- | []]]]]; reflexivity. }
  rewrite Hshift. rewrite Z.shiftr_div_pow2
    by (simpl in Hs; destruct Hs as [<- | [<- | [<- | [<- | []]]]]; lia).
  change (2 ^ 32) with 4294967296 in *. change (2 ^ 31) with 2147483648.
  assert (Hx : - 2 ^ 31 <=
               (if p <? 2147483648 then p else p - 4294967296) / 2 ^ s < 2 ^ 31
               /\ ((if p <? 2147483648 then p else p - 4294967296) / 2 ^ s)
                    mod 256 = (p / 2 ^ s) mod 256).
  { change (2 ^ 31) with 2147483648. simpl in Hs.
    destruct (Z.ltb_spec p 2147483648);
      destruct Hs as [<- | [<- | [<- | [<- | []]]]];
      [change (2 ^ 0) with 1 | change (2 ^ 8) with 256
       | change (2 ^ 16) with 65536 | change (2 ^ 24) with 16777216
       | change (2 ^ 0) with 1 | change (2 ^ 8) with 256
       | change (2 ^ 16) with 65536 | change (2 ^ 24) with 16777216];
      Z.div_mod_to_equations; lia. }
  destruct Hx as [Hrange Hmod].
  rewrite (toInt32_signed _ Hrange), Z.land_ones by lia.
  change (2 ^ 8) with 256. rewrite Hmod.
  apply toInt32_signed. change (2 ^ 31) with 2147483648.
  pose proof (Z.mod_pos_bound (p / 2 ^ s) 256 ltac:(lia)). lia.
Qed.

Lemma readUInt32LE_bytes (buffer : Buffer) (offset : nat) :
  allBytes buffer -> (offset + 4 <= length buffer)%nat ->
  exists b0 b1 b2 b3,
    buffer !! offset = Some b0 /\ buffer !! (offset + 1)%nat = Some b1 /\
    buffer !! (offset + 2)%nat = Some b2 /\ buffer !! (offset + 3)%nat = Some b3 /\
    readUInt32LE buffer offset = Some (b0 + b1 * 2 ^ 8 + b2 * 2 ^ 16 + b3 * 2 ^ 24) /\
    0 <= b0 < 256 /\ 0 <= b1 < 256 /\ 0 <= b2 < 256 /\ 0 <= b3 < 256.
Proof.
  intros Hbytes Hlen. unfold readUInt32LE. unfold Buffer in *.
  destruct (lookup_lt_is_Some_2 buffer offset ltac:(lia)) as [b0 H0].
  destruct (lookup_lt_is_Some_2 buffer (offset + 1) ltac:(lia)) as [b1 H1].
  destruct (lookup_lt_is_Some_2 buffer (offset + 2) ltac:(lia)) as [b2 H2].
  destruct (lookup_lt_is_Some_2 buffer (offset + 3) ltac:(lia)) as [b3 H3].
  exists b0, b1, b2, b3. rewrite H0, H1, H2, H3.
  repeat split; try reflexivity;
    try (eapply allBytes_lookup; [exact Hbytes | eassumption]).
Qed.

Lemma word_bytes (b0 b1 b2 b3 s : Z) :
  0 <= b0 < 256 -> 0 <= b1 < 256 -> 0 <= b2 < 256 -> 0 <= b3 < 256 ->
  In s [0; 8; 16; 24] ->
  let p := b0 + b1 * 2 ^ 8 + b2 * 2 ^ 16 + b3 * 2 ^ 24 in
  0 <= p < 2 ^ 32 /\
  (p / 2 ^ s) mod 256 = List.nth (Z.to_nat (s / 8)) [b0; b1; b2; b3] 0.
Proof.
  intros H0 H1 H2 H3 Hs. cbv zeta.
  change (2 ^ 8) with 256. change (2 ^ 16) with 65536.
  change (2 ^ 24) with 16777216. change (2 ^ 32) with 4294967296.
  split; [lia|]. simpl in Hs.
  destruct Hs as [<- | [<- | [<- | [<- | []]]]];
    [change (2 ^ 0) with 1 | change (2 ^ 8) with 256
     | change (2 ^ 16) with 65536 | change (2 ^ 24) with 16777216];
    simpl List.nth; Z.div_mod_to_equations; lia.
Qed.

Lemma channel_bytes (buffer : Buffer) (offset : nat) :
  allBytes buffer -> (offset + 4 <= length buffer)%nat ->
  exists pixel32,
    readUInt32LE buffer offset = Some pixel32 /\
    forall s, In s [0; 8; 16; 24] ->
      band (sar pixel32 s) 0xFF = byteAt buffer (offset + Z.to_nat (s / 8)).
Proof.
  intros Hbytes Hlen.
  destruct (readUInt32LE_bytes buffer offset Hbytes Hlen)
    as (b0 & b1 & b2 & b3 & H0 & H1 & H2 & H3 & Hread & R0 & R1 & R2 & R3).
  eexists. split; [exact Hread|]. intros s Hs.
  destruct (word_bytes b0 b1 b2 b3 s R0 R1 R2 R3 Hs) as [Hword Hbyte].
  rewrite band_sar_byte by assumption. rewrite Hbyte.
  simpl in Hs. destruct Hs as [<- | [<- | [<- | [<- | []]]]].
  - change (Z.to_nat (0 / 8)) with 0%nat. rewrite Nat.add_0_r.
    now rewrite (byteAt_lookup _ _ _ H0).
  - change (Z.to_nat (8 / 8)) with 1%nat. now rewrite (byteAt_lookup _ _ _ H1).
  - change (Z.to_nat (16 / 8)) with 2%nat. now rewrite (byteAt_lookup _ _ _ H2).
  - change (Z.to_nat (24 / 8)) with 3%nat. now rewrite (byteAt_lookup _ _ _ H3).
Qed.

Lemma convertBGRXToRGBA_fold (buffer : Buffer) (pixelFormat : PixelFormat)
    (target : Buffer) (n : nat) :
  allBytes buffer -> (n * 4 <= length buffer)%nat ->
  redMax pixelFormat <> 65280 ->
  In (redShift pixelFormat) [0; 8; 16; 24] ->
  In (greenShift pixelFormat) [0; 8; 16; 24] ->
  In (blueShift pixelFormat) [0; 8; 16; 24] ->
  foldl (fun acc i =>
           target ← acc;
           pixel32 ← readUInt32LE buffer (i * 4);
           match bgrxPixel pixelFormat pixel32 with
           | [r; g; b; a] =>
               Some (store (i * 4 + 3) a
                      (store (i * 4 + 2) b
                        (store (i * 4 + 1) g
                          (store (i * 4) r target))))
           | _ => None
           end)
        (Some target) (seq 0 n)
  = Some (forPixels (Z.of_nat n)
            (fun i t =>
               writeQuad i
                 (byteAt buffer (i * 4 + Z.to_nat (redShift pixelFormat / 8)))
                 (byteAt buffer (i * 4 + Z.to_nat (greenShift pixelFormat / 8)))
                 (byteAt buffer (i * 4 + Z.to_nat (blueShift pixelFormat / 8)))
                 255 t)
            target).
Proof.
  intros Hbytes Hlen Hmax Hr Hg Hb. unfold forPixels. rewrite Nat2Z.id.
  induction n as [|n IH]; [reflexivity|].
  rewrite seq_S, !foldl_app, IH by lia. cbn [foldl Nat.add mbind option_bind].
  destruct (channel_bytes buffer (n * 4) Hbytes ltac:(lia))
    as (pixel32 & Hread & Hchannels).
  rewrite Hread. cbn [mbind option_bind].
  rewrite bgrxPixel_high_byte_by_red_only by exact Hmax.
  rewrite !Hchannels by assumption. reflexivity.
Qed.

(** X24: the 32-bit decoder, on a buffer of bytes that holds every pixel and
    a format whose shifts are whole bytes (and whose red maximum is not
    0xFF00), gives each pixel the source bytes its shifts select: red is
    byte redShift / 8 of the pixel's four, green byte greenShift / 8, blue
    byte blueShift / 8, and alpha is 255. *)
Theorem convertBGRXToRGBA_channels (buffer : Buffer) (width height : Z)
    (pixelFormat : PixelFormat) :
  0 <= width * height -> allBytes buffer ->
  width * height * 4 <= len buffer ->
  redMax pixelFormat <> 65280 ->
  In (redShift pixelFormat) [0; 8; 16; 24] ->
  In (greenShift pixelFormat) [0; 8; 16; 24] ->
  In (blueShift pixelFormat) [0; 8; 16; 24] ->
  exists out,
    convertBGRXToRGBA buffer width height pixelFormat = Some out /\
    len out = width * height * 4 /\
    forall i, (i < Z.to_nat (width * height))%nat ->
      out !! (i * 4)%nat
        = buffer !! (i * 4 + Z.to_nat (redShift pixelFormat / 8))%nat /\
      out !! (i * 4 + 1)%nat
        = buffer !! (i * 4 + Z.to_nat (greenShift pixelFormat / 8))%nat /\
      out !! (i * 4 + 2)%nat
        = buffer !! (i * 4 + Z.to_nat (blueShift pixelFormat / 8))%nat /\
      out !! (i * 4 + 3)%nat = Some 255.
Proof.
  intros Hpc Hbytes Hlen Hmax Hr Hg Hb. unfold convertBGRXToRGBA. cbv zeta.
  assert (Hfit : (Z.to_nat (width * height) * 4 <= length buffer)%nat)
    by (unfold len in Hlen; lia).
  rewrite (convertBGRXToRGBA_fold buffer pixelFormat _ _ Hbytes Hfit Hmax Hr Hg Hb).
  eexists. split; [reflexivity|]. split.
  - unfold len. rewrite Z2Nat.id by lia.
    rewrite forPixels_length by (intros i t; apply writeQuad_length).
    apply alloc_len. lia.
  - intros i Hi.
    pose proof (forPixels_quads (Z.to_nat (width * height)) _
                  (fun i => byteAt buffer (i * 4 + Z.to_nat (redShift pixelFormat / 8)))
                  (fun i => byteAt buffer (i * 4 + Z.to_nat (greenShift pixelFormat / 8)))
                  (fun i => byteAt buffer (i * 4 + Z.to_nat (blueShift pixelFormat / 8)))
                  (fun _ => 255) (alloc (width * height * 4))
                  ltac:(reflexivity)
                  (alloc_quads (width * height) Hpc) i Hi) as Hquad.
    cbv zeta in Hquad. destruct Hquad as (H0 & H1 & H2 & H3).
    assert (Hbyte : forall s, In s [0; 8; 16; 24] ->
              Some (toUint8 (byteAt buffer (i * 4 + Z.to_nat (s / 8))))
              = buffer !! (i * 4 + Z.to_nat (s / 8))%nat).
    { intros s Hs.
      destruct (lookup_lt_is_Some_2 buffer (i * 4 + Z.to_nat (s / 8)))
        as [b Hlookup].
      { simpl in Hs.
        clear - Hs Hi Hfit.
        destruct Hs as [<- | [<- | [<- | [<- | []]]]];
          [change (Z.to_nat (0 / 8)) with 0%nat
          | change (Z.to_nat (8 / 8)) with 1%nat
          | change (Z.to_nat (16 / 8)) with 2%nat
          | change (Z.to_nat (24 / 8)) with 3%nat]; lia. }
      rewrite (byteAt_lookup _ _ _ Hlookup), toUint8_byte
        by (eapply allBytes_lookup; eauto).
      symmetry. exact Hlookup. }
    rewrite H0, H1, H2, H3, !Hbyte by assumption. auto.
Qed.

Lemma convertBGRXToRGBA_channels_witness :
  exists out,
    convertBGRXToRGBA bgrxFrame 1 1 bgrx = Some out /\
    out !! 0%nat = Some 0x33 /\ out !! 1%nat = Some 0x22 /\
    out !! 2%nat = Some 0x11 /\ out !! 3%nat = Some 255.
Proof.
  assert (Hbytes : allBytes bgrxFrame) by (repeat constructor; lia).
  destruct (convertBGRXToRGBA_channels bgrxFrame 1 1 bgrx
              ltac:(lia) Hbytes ltac:(reflexivity) ltac:(discriminate)
              ltac:(simpl; auto) ltac:(simpl; auto) ltac:(simpl; auto))
    as (out & Hout & _ & Hpix).
  exists out. split; [exact Hout|].
  destruct (Hpix 0%nat ltac:(simpl; lia)) as (H0 & H1 & H2 & H3).
  repeat split; assumption.
Defined.

Lemma readUInt32LE_past_end (buffer : Buffer) (offset : nat) :
  (length buffer < offset + 4)%nat -> readUInt32LE buffer offset = None.
Proof.
  intros Hshort. unfold readUInt32LE. unfold Buffer in *.
  destruct (buffer !! offset) eqn:E0; [|reflexivity].
  destruct (buffer !! (offset + 1)%nat) eqn:E1; [|reflexivity].
  destruct (buffer !! (offset + 2)%nat) eqn:E2; [|reflexivity].
  destruct (buffer !! (offset + 3)%nat) eqn:E3; [|reflexivity].
  apply lookup_lt_Some in E3. lia.
Qed.

Lemma decoder_stays_failed (buffer : Buffer) (pixelFormat : PixelFormat)
    (pixels : list nat) :
  foldl (fun acc i =>
           target ← acc;
           pixel32 ← readUInt32LE buffer (i * 4);
           match bgrxPixel pixelFormat pixel32 with
           | [r; g; b; a] =>
               Some (store (i * 4 + 3) a
                      (store (i * 4 + 2) b
                        (store (i * 4 + 1) g
                          (store (i * 4) r target))))
           | _ => None
           end)
        None pixels = None.
Proof. induction pixels as [|p rest IH]; [reflexivity | exact IH]. Qed.

(** X25: the 32-bit decoder fails (the read past the end raises) whenever
    the buffer is shorter than four bytes per pixel, whatever the format. *)
Theorem convertBGRXToRGBA_short_buffer (buffer : Buffer) (width height : Z)
    (pixelFormat : PixelFormat) :
  len buffer < width * height * 4 ->
  convertBGRXToRGBA buffer width height pixelFormat = None.
Proof.
  intros Hshort. unfold convertBGRXToRGBA. cbv zeta.
  set (missing := (length buffer / 4)%nat).
  assert (Hdiv : (4 * missing <= length buffer < 4 * missing + 4)%nat).
  { unfold missing. pose proof (Nat.div_mod_eq (length buffer) 4).
    pose proof (Nat.mod_upper_bound (length buffer) 4 ltac:(lia)). lia. }
  assert (Hsplit : seq 0 (Z.to_nat (width * height)) =
            seq 0 missing ++ missing
              :: seq (S missing) (Z.to_nat (width * height) - S missing)).
  { unfold len in Hshort.
    replace (Z.to_nat (width * height))
      with (missing + S (Z.to_nat (width * height) - S missing))%nat at 1 by lia.
    rewrite seq_app. reflexivity. }
  rewrite Hsplit, foldl_app. cbn [foldl].
  rewrite (readUInt32LE_past_end buffer (missing * 4)) by lia.
  destruct (foldl _ _ (seq 0 missing)); cbn [mbind option_bind];
    apply decoder_stays_failed.
Qed.

Lemma convertBGRXToRGBA_short_buffer_witness :
  convertBGRXToRGBA [1; 2; 3; 4; 5; 6; 7] 2 1 bgrx = None.
Proof.
  apply (convertBGRXToRGBA_short_buffer [1; 2; 3; 4; 5; 6; 7] 2 1 bgrx).
  unfold len. simpl. lia.
Defined.
